(** * Daily Progress Log API (main.py): a shallow embedding and its properties

    The development follows the layout of [main.py]:
    - Python values, exceptions and the [str.split] used on the header;
    - the pydantic models [LogEntry] and [LogEntryResponse];
    - the Firestore client, as an in-memory store of documents addressed by
      their path;
    - the dependency [get_current_user] and the five endpoints;
    - the request router (dependencies, then body validation, then handler)
      on a decoded request, [handle];
    - the service as a client meets it, [Service.serve]: the body is read
      and decoded before the dependencies run, and the Firestore client
      checks a path before it uses it.

    What the process does not own is taken as an input of each request:
    the outcome of [auth.verify_id_token], the reading of the clock
    ([datetime.now().isoformat()]) and the identifier that the Firestore
    client draws for a new document ([document()] with no argument). *)

From Stdlib Require Import ZArith String Ascii List DecimalString.
From stdpp Require Import base option gmap strings list list_monad sorting fin_maps.

Local Open Scope string_scope.
Local Open Scope Z_scope.

(* ===================================================================== *)
(** ** Python values and exceptions *)
(* ===================================================================== *)

(** The values a JSON body or a Firestore field holds, as far as this
    program tells them apart: [None]/null, a string, or anything else
    (a number stands for every non-string scalar). *)
Inductive value :=
  | VNone
  | VStr (s : string)
  | VNum (n : Z).

#[global] Instance value_eq_dec : EqDecision value.
Proof. solve_decision. Defined.

(** A Python [dict] with string keys. *)
Abbreviation dict := (gmap string value).

(** The exception classes that reach an [except] clause of [main.py]. Each
    carries the text that [str(e)] yields, except [HTTPException], which
    carries its two attributes. *)
Inductive exn :=
  | IndexError (msg : string)
  | KeyError (msg : string)
  | TypeError (msg : string)
  | AttributeError (msg : string)
  | ValidationError (msg : string)
  | RequestValidationError (msg : string)
  | InvalidIdTokenError (msg : string)
  | ExpiredIdTokenError (msg : string)
  | NotFound (msg : string)
  | HTTPException (status_code : Z) (detail : string)
  | OtherError (msg : string).

#[global] Instance exn_eq_dec : EqDecision exn.
Proof. solve_decision. Defined.

Definition str_of_Z (n : Z) : string := NilZero.string_of_int (Z.to_int n).

(** [str(e)], as the f-strings of the [except] clauses use it. Starlette's
    [HTTPException.__str__] (0.28 and later) is [f"{status_code}: {detail}"]. *)
Definition str (e : exn) : string :=
  match e with
  | IndexError m | KeyError m | TypeError m | AttributeError m
  | ValidationError m | RequestValidationError m
  | InvalidIdTokenError m | ExpiredIdTokenError m | NotFound m
  | OtherError m => m
  | HTTPException sc d => str_of_Z sc +:+ ": " +:+ d
  end.

(** Every class above derives from [Exception]: [except Exception] catches
    all of them, [HTTPException] included. *)
Definition isinstance_Exception (e : exn) : bool := true.

Inductive result (A : Type) :=
  | Ok (a : A)
  | Raise (e : exn).
Arguments Ok {A} a.
Arguments Raise {A} e.

#[global] Instance result_eq_dec {A} `{EqDecision A} : EqDecision (result A).
Proof. solve_decision. Defined.

(* ===================================================================== *)
(** ** Strings: [str.split], [lower], path segments *)
(* ===================================================================== *)

(** [s.split(sep)] for a non-empty [sep]: the pieces between the
    occurrences of [sep], found from left to right without overlap.
    [skip] counts the characters of a matched separator still to drop,
    [cur] is the current piece, reversed. *)
Fixpoint split_go (sep : string) (skip : nat) (cur : string) (s : string)
  : list string :=
  match s with
  | EmptyString => [String.rev cur]
  | String c s' =>
      match skip with
      | S k => split_go sep k cur s'
      | O =>
          if String.prefix sep s
          then String.rev cur :: split_go sep (Nat.pred (String.length sep)) "" s'
          else split_go sep O (String c cur) s'
      end
  end.

Definition split (s sep : string) : list string := split_go sep O "" s.

(** [sep in s]. *)
Fixpoint contains (sep s : string) : bool :=
  String.prefix sep s ||
  match s with
  | EmptyString => false
  | String _ s' => contains sep s'
  end.

(** [l[i]] on a Python list. *)
Definition list_getitem {A} (l : list A) (i : nat) : result A :=
  match l !! i with
  | Some x => Ok x
  | None => Raise (IndexError "list index out of range")
  end.

Definition lower_ascii (c : ascii) : ascii :=
  let n := nat_of_ascii c in
  if (Nat.leb 65 n && Nat.leb n 90)%bool then ascii_of_nat (n + 32) else c.

Fixpoint lower (s : string) : string :=
  match s with
  | EmptyString => EmptyString
  | String c s' => String (lower_ascii c) (lower s')
  end.

(** [strip_prefix pre s] is the rest of [s] after [pre], when [s] starts
    with it. *)
Fixpoint strip_prefix (pre s : string) : option string :=
  match pre with
  | EmptyString => Some s
  | String a pre' =>
      match s with
      | EmptyString => None
      | String b s' => if Ascii.eqb a b then strip_prefix pre' s' else None
      end
  end.

Fixpoint has_slash (s : string) : bool :=
  match s with
  | EmptyString => false
  | String c s' => Ascii.eqb c "/" || has_slash s'
  end.

(** One segment of a Firestore path: not empty, no ["/"]. *)
Definition is_segment (s : string) : bool :=
  negb (String.eqb s "") && negb (has_slash s).

(** The text after the last ["/"] of a path. *)
Fixpoint last_segment_go (cur : string) (s : string) : string :=
  match s with
  | EmptyString => String.rev cur
  | String c s' =>
      if Ascii.eqb c "/" then last_segment_go "" s'
      else last_segment_go (String c cur) s'
  end.
Definition last_segment (s : string) : string := last_segment_go "" s.

(* ===================================================================== *)
(** ** Pydantic models *)
(* ===================================================================== *)

Record LogEntry := {
  taskDescription : string;
  project : string;
  status : string;
  priority : string;
  startTime : option string;
  endTime : option string;
  duration : option string;
  comments : option string;
  date : string
}.

(** [class LogEntryResponse(LogEntry)]: the inherited fields and [id]. *)
Record LogEntryResponse := {
  entry : LogEntry;
  id : string
}.

#[global] Instance LogEntry_eq_dec : EqDecision LogEntry.
Proof. solve_decision. Defined.
#[global] Instance LogEntryResponse_eq_dec : EqDecision LogEntryResponse.
Proof. solve_decision. Defined.

Definition optional_value (o : option string) : value :=
  match o with
  | Some s => VStr s
  | None => VNone
  end.

(** [log.model_dump()]: every field of the model, the unset optional
    ones as [None]. *)
Definition model_dump (log : LogEntry) : dict :=
  <["taskDescription" := VStr (taskDescription log)]>
  (<["project" := VStr (project log)]>
  (<["status" := VStr (status log)]>
  (<["priority" := VStr (priority log)]>
  (<["startTime" := optional_value (startTime log)]>
  (<["endTime" := optional_value (endTime log)]>
  (<["duration" := optional_value (duration log)]>
  (<["comments" := optional_value (comments log)]>
  (<["date" := VStr (date log)]> ∅)))))))).

(** Field validators. [taskDescription: str] is required; a field
    [Optional[str] = None] takes a string or [None] and defaults to [None];
    [date: str] takes a string and otherwise the default factory. Only the
    first failing field is reported. *)
Definition required_str (kw : dict) (f : string) : result string :=
  match kw !! f with
  | Some (VStr s) => Ok s
  | Some _ => Raise (ValidationError (f +:+ ": Input should be a valid string"))
  | None => Raise (ValidationError (f +:+ ": Field required"))
  end.

Definition optional_str (kw : dict) (f : string) : result (option string) :=
  match kw !! f with
  | None | Some VNone => Ok None
  | Some (VStr s) => Ok (Some s)
  | Some _ => Raise (ValidationError (f +:+ ": Input should be a valid string"))
  end.

Definition defaulted_str (kw : dict) (f : string) (default : string)
  : result string :=
  match kw !! f with
  | None => Ok default
  | Some (VStr s) => Ok s
  | Some _ => Raise (ValidationError (f +:+ ": Input should be a valid string"))
  end.

Definition result_bind {A B} (r : result A) (k : A → result B) : result B :=
  match r with
  | Ok a => k a
  | Raise e => Raise e
  end.

Notation "'try' x <- r ; k" := (result_bind r (fun x => k))
  (at level 10, x name, r at level 100, k at level 200).

(** The constructor [LogEntry] on the keyword arguments [kw]; [now] is what [datetime.now().isoformat()] returns
    when the default factory of [date] runs. Unknown keys are ignored. *)
Definition LogEntry_init (now : string) (kw : dict) : result LogEntry :=
  try td <- required_str kw "taskDescription";
  try pj <- required_str kw "project";
  try st <- required_str kw "status";
  try pr <- required_str kw "priority";
  try t0 <- optional_str kw "startTime";
  try t1 <- optional_str kw "endTime";
  try du <- optional_str kw "duration";
  try cm <- optional_str kw "comments";
  try dt <- defaulted_str kw "date" now;
  Ok {| taskDescription := td; project := pj; status := st; priority := pr;
        startTime := t0; endTime := t1; duration := du; comments := cm;
        date := dt |}.

(** The constructor [LogEntryResponse] on [id=i] and the keyword arguments
    [kw]: Python refuses the call when [kw] itself has the key [id]. *)
Definition LogEntryResponse_init (now : string) (i : string) (kw : dict)
  : result LogEntryResponse :=
  match kw !! "id" with
  | Some _ =>
      Raise (TypeError "got multiple values for keyword argument 'id'")
  | None =>
      try e <- LogEntry_init now kw;
      Ok {| entry := e; id := i |}
  end.

(* ===================================================================== *)
(** ** The Firestore client *)
(* ===================================================================== *)

(** The documents of the database, each under its full path
    ([collection/id/collection/id...]), with its fields. *)
Abbreviation Firestore := (gmap string dict).

(** The module-level [db]: the client, or [None] when the initialisation
    at import time failed. *)
Abbreviation Db := (option (gmap string dict)).

(** A handler runs on the global [db]; what it wrote stays written when it
    raises. *)
Definition M (A : Type) : Type := Db → result A * Db.

Definition ret {A} (a : A) : M A := fun db => (Ok a, db).
Definition raise {A} (e : exn) : M A := fun db => (Raise e, db).
Definition bind {A B} (m : M A) (k : A → M B) : M B :=
  fun db =>
    match m db with
    | (Ok a, db') => k a db'
    | (Raise e, db') => (Raise e, db')
    end.
Definition lift {A} (r : result A) : M A := fun db => (r, db).

(** [try: body except Exception as e: handler(e)]. *)
Definition try_except {A} (body : M A) (handler : exn → M A) : M A :=
  fun db =>
    match body db with
    | (Ok a, db') => (Ok a, db')
    | (Raise e, db') =>
        if isinstance_Exception e then handler e db' else (Raise e, db')
    end.

Notation "'do' x <- m ; k" := (bind m (fun x => k))
  (at level 10, x name, m at level 100, k at level 200).
Notation "m ;; k" := (bind m (fun _ => k))
  (at level 100, k at level 200, right associativity).

(** [db is None]. *)
Definition db_is_None : M bool := fun db => (Ok (bool_decide (db = None)), db).

(** An attribute of [db]: [AttributeError] on [None]. *)
Definition client (attr : string) : M (gmap string dict) :=
  fun db =>
    match db with
    | Some fs => (Ok fs, db)
    | None =>
        (Raise (AttributeError
                  ("'NoneType' object has no attribute '" +:+ attr +:+ "'")), db)
    end.

Definition put (fs : gmap string dict) : M unit := fun _ => (Ok tt, Some fs).

Record DocumentReference := {
  ref_path : string;
  ref_id : string
}.

(** [db.collection(path).document()]: a reference to a new document of the
    collection, under the identifier [auto_id] that the client draws. This
    is the client on a path that it accepts; the check of the path is
    [verify_path] below, and [Service] runs the handlers behind it. *)
Definition collection_document (collection_path auto_id : string)
  : M DocumentReference :=
  client "collection" ;;
  ret {| ref_path := collection_path +:+ "/" +:+ auto_id; ref_id := auto_id |}.

(** [db.document(path)], on a path that the client accepts. *)
Definition document (doc_path : string) : M DocumentReference :=
  client "document" ;;
  ret {| ref_path := doc_path; ref_id := last_segment doc_path |}.

(** [doc_ref.set(data)]: creates or replaces the document. *)
Definition doc_set (r : DocumentReference) (data : dict) : M unit :=
  do fs <- client "document";
  put (<[ref_path r := data]> fs).

(** [doc_ref.get()]: the snapshot; [None] stands for [exists == False]. *)
Definition doc_get (r : DocumentReference) : M (option dict) :=
  do fs <- client "document";
  ret (fs !! ref_path r).

(** [doc_ref.update(data)]: writes the fields of [data] into an existing
    document and keeps its other fields; [NotFound] when there is none. *)
Definition doc_update (r : DocumentReference) (data : dict) : M unit :=
  do fs <- client "document";
  match fs !! ref_path r with
  | Some old => put (<[ref_path r := data ∪ old]> fs)
  | None => raise (NotFound ("No document to update: " +:+ ref_path r))
  end.

(** [doc_ref.delete()]. *)
Definition doc_delete (r : DocumentReference) : M unit :=
  do fs <- client "document";
  put (delete (ref_path r) fs).

(** The identifier under which [p] is a document of the collection [cp]. *)
Definition child_id (cp p : string) : option string :=
  match strip_prefix (cp +:+ "/") p with
  | Some i => if is_segment i then Some i else None
  | None => None
  end.

(** The documents of one collection, by identifier. *)
Definition collection_items (cp : string) (fs : gmap string dict)
  : list (string * dict) :=
  omap (fun pd : string * dict =>
          match child_id cp pd.1 with
          | Some i => Some (i, pd.2)
          | None => None
          end)
       (map_to_list fs).

Definition collection (cp : string) (fs : gmap string dict) : gmap string dict :=
  list_to_map (collection_items cp fs).

(** Firestore's order on field values: null, then numbers, then strings;
    strings byte by byte. *)
Definition value_leb (a b : value) : bool :=
  match a, b with
  | VNone, _ => true
  | VNum _, VNone => false
  | VNum m, VNum n => Z.leb m n
  | VNum _, VStr _ => true
  | VStr s, VStr t => String.leb s t
  | VStr _, _ => false
  end.

(** A query ordered on [field] orders ties by document name, in the same
    direction. *)
Definition snapshot_leb (field : string) (x y : string * dict) : bool :=
  match x.2 !! field, y.2 !! field with
  | Some a, Some b =>
      if bool_decide (a = b) then String.leb x.1 y.1 else value_leb a b
  | None, _ => true
  | Some _, None => false
  end.

Definition descending (field : string) (x y : string * dict) : Prop :=
  snapshot_leb field y x = true.

#[global] Instance descending_dec field : RelDecision (descending field).
Proof. intros x y. unfold descending. apply _. Defined.

(** [db.collection(path).order_by(field, direction=DESCENDING).stream()]:
    the documents of the collection that have [field], largest first, on a
    path that the client accepts. *)
Definition order_by_descending_stream (collection_path field : string)
  : M (list (string * dict)) :=
  do fs <- client "collection";
  ret (merge_sort (descending field)
         (filter (fun x : string * dict => is_Some (x.2 !! field))
                 (map_to_list (collection collection_path fs)))).

(* ===================================================================== *)
(** ** The request and what it brings from outside *)
(* ===================================================================== *)

(** A request once its body is decoded: its headers, under their
    lower-cased names as Starlette keeps them, and its JSON body, an
    object. The request before that is [HttpRequest] below. *)
Record Request := {
  headers : gmap string string;
  body : dict
}.

(** [request.headers.get(key)]: header names compare without case. *)
Definition headers_get (request : Request) (key : string) : option string :=
  headers request !! lower key.

(** What one request meets outside the process. *)
Record Env := {
  (** [auth.verify_id_token]: the decoded claims, or what it raises *)
  verify_id_token : string → result (gmap string string);
  (** [datetime.now().isoformat()] *)
  now : string;
  (** the identifier drawn by [document()] *)
  auto_id : string
}.

(** [d[key]] on the decoded token. *)
Definition dict_getitem (d : gmap string string) (key : string) : result string :=
  match d !! key with
  | Some v => Ok v
  | None => Raise (KeyError ("'" +:+ key +:+ "'"))
  end.

(* ===================================================================== *)
(** ** Dependency: the user of the request *)
(* ===================================================================== *)

Definition get_current_user (env : Env) (request : Request) : M string :=
  do none <- db_is_None;
  if (none : bool) then
    raise (HTTPException 500 "Firebase connection not available.")
  else
    match headers_get request "Authorization" with
    | None | Some EmptyString =>
        raise (HTTPException 401 "Authorization header missing")
    | Some auth_header =>
        try_except
          (do id_token <- lift (list_getitem (split auth_header "Bearer ") 1);
           do decoded_token <- lift (verify_id_token env id_token);
           lift (dict_getitem decoded_token "uid"))
          (fun e =>
             match e with
             | IndexError _ | InvalidIdTokenError _ | ExpiredIdTokenError _ =>
                 raise (HTTPException 401
                          ("Invalid or expired authentication token: " +:+ str e))
             | _ =>
                 raise (HTTPException 500
                          ("An error occurred during token verification: " +:+ str e))
             end)
    end.

(* ===================================================================== *)
(** ** Endpoints *)
(* ===================================================================== *)

Definition read_root : gmap string string :=
  {[ "message" := "Welcome to the Daily Progress Log API!" ]}.

Definition appId : string := "default-app-id".

(** [f"artifacts/{appId}/users/{user_id}/progress-logs"] *)
Definition collection_path (user_id : string) : string :=
  "artifacts/" +:+ appId +:+ "/users/" +:+ user_id +:+ "/progress-logs".

(** [f"artifacts/{appId}/users/{user_id}/progress-logs/{log_id}"] *)
Definition doc_path (user_id log_id : string) : string :=
  "artifacts/" +:+ appId +:+ "/users/" +:+ user_id +:+ "/progress-logs/" +:+ log_id.

Definition create_log (env : Env) (log : LogEntry) (user_id : string)
  : M LogEntryResponse :=
  try_except
    (do doc_ref <- collection_document (collection_path user_id) (auto_id env);
     let log_data := model_dump log in
     doc_set doc_ref log_data ;;
     lift (LogEntryResponse_init (now env) (ref_id doc_ref) log_data))
    (fun e => raise (HTTPException 500 ("Failed to create log: " +:+ str e))).

(** The loop of [get_logs]: it stops at the first document that the
    response model refuses. *)
Fixpoint logs_of_docs (now : string) (docs : list (string * dict))
  : result (list LogEntryResponse) :=
  match docs with
  | [] => Ok []
  | doc :: docs' =>
      try r <- LogEntryResponse_init now doc.1 doc.2;
      try logs <- logs_of_docs now docs';
      Ok (r :: logs)
  end.

Definition get_logs (env : Env) (user_id : string) : M (list LogEntryResponse) :=
  try_except
    (do docs <- order_by_descending_stream (collection_path user_id) "date";
     lift (logs_of_docs (now env) docs))
    (fun e => raise (HTTPException 500 ("Failed to retrieve logs: " +:+ str e))).

(** [LogEntryResponse(id=log_id, **snapshot.to_dict())]: [to_dict()] is
    [None] for a missing document, which [**] refuses. *)
Definition response_of_snapshot (now log_id : string) (snapshot : option dict)
  : result LogEntryResponse :=
  match snapshot with
  | Some data => LogEntryResponse_init now log_id data
  | None => Raise (TypeError "argument after ** must be a mapping, not NoneType")
  end.

Definition update_log (env : Env) (log_id : string) (log : LogEntry)
    (user_id : string) : M LogEntryResponse :=
  try_except
    (do doc_ref <- document (doc_path user_id log_id);
     do snapshot <- doc_get doc_ref;
     (if snapshot is None
      then raise (HTTPException 404 "Log not found") else ret tt) ;;
     let log_data := model_dump log in
     doc_update doc_ref log_data ;;
     do updated <- doc_get doc_ref;
     lift (response_of_snapshot (now env) log_id updated))
    (fun e => raise (HTTPException 500 ("Failed to update log: " +:+ str e))).

Definition delete_log (env : Env) (log_id : string) (user_id : string) : M unit :=
  try_except
    (do doc_ref <- document (doc_path user_id log_id);
     do snapshot <- doc_get doc_ref;
     (if snapshot is None
      then raise (HTTPException 404 "Log not found") else ret tt) ;;
     doc_delete doc_ref ;;
     ret tt)
    (fun e => raise (HTTPException 500 ("Failed to delete log: " +:+ str e))).

(* ===================================================================== *)
(** ** The router *)
(* ===================================================================== *)

Inductive Endpoint :=
  | GET_root
  | POST_logs
  | GET_logs
  | PUT_logs (log_id : string)
  | DELETE_logs (log_id : string).

Inductive Reply :=
  | RMessage (m : gmap string string)
  | REntry (r : LogEntryResponse)
  | REntries (l : list LogEntryResponse)
  | RNoContent.

(** The body parameter [log: LogEntry]: FastAPI raises
    [RequestValidationError] when the model refuses the body. *)
Definition body_LogEntry (env : Env) (request : Request) : M LogEntry :=
  match LogEntry_init (now env) (body request) with
  | Ok log => ret log
  | Raise e => raise (RequestValidationError (str e))
  end.

(** One decoded request: the dependencies of the route first, then the
    validation of its body, then the handler. *)
Definition handle (env : Env) (ep : Endpoint) (request : Request) : M Reply :=
  match ep with
  | GET_root => ret (RMessage read_root)
  | POST_logs =>
      do user_id <- get_current_user env request;
      do log <- body_LogEntry env request;
      do r <- create_log env log user_id;
      ret (REntry r)
  | GET_logs =>
      do user_id <- get_current_user env request;
      do l <- get_logs env user_id;
      ret (REntries l)
  | PUT_logs log_id =>
      do user_id <- get_current_user env request;
      do log <- body_LogEntry env request;
      do r <- update_log env log_id log user_id;
      ret (REntry r)
  | DELETE_logs log_id =>
      do user_id <- get_current_user env request;
      delete_log env log_id user_id ;;
      ret RNoContent
  end.

Definition is_logs_route (ep : Endpoint) : bool :=
  match ep with
  | GET_root => false
  | _ => true
  end.

(** The status of the answer: that of the route ([status_code=204] on
    DELETE) or that of the exception. A request validation error is
    answered 422 by the handler of the framework, which echoes the refused
    input in its answer. *)
Definition success_status (ep : Endpoint) : Z :=
  match ep with
  | DELETE_logs _ => 204
  | _ => 200
  end.

Definition response_status {A} (ep : Endpoint) (r : result A) : Z :=
  match r with
  | Ok _ => success_status ep
  | Raise (HTTPException sc _) => sc
  | Raise (RequestValidationError _) => 422
  | Raise _ => 500
  end.

(* ===================================================================== *)
(** ** Listings and the documents of this API *)
(* ===================================================================== *)

(** The stored form of an entry of a listing. *)
Definition doc_of (r : LogEntryResponse) : string * dict :=
  (id r, model_dump (entry r)).

(** The documents that [get_logs] streams for a collection. *)
Definition listing (cp : string) (fs : gmap string dict) : list (string * dict) :=
  merge_sort (descending "date")
    (filter (fun x : string * dict => is_Some (x.2 !! "date"))
            (map_to_list (collection cp fs))).

(** [d] is the dump of a [LogEntry]: what [create_log] and [update_log]
    write. *)
Definition is_model_dump (d : dict) : bool :=
  match LogEntry_init "" d with
  | Ok log => bool_decide (d = model_dump log)
  | Raise _ => false
  end.

(** Every document of the user's collection was written by this API. *)
Definition namespace_ok (user_id : string) (fs : gmap string dict) : Prop :=
  map_Forall (fun _ d => is_model_dump d = true)
             (collection (collection_path user_id) fs).

(** Every document of the database was written by this API. *)
Definition store_ok (fs : gmap string dict) : Prop :=
  map_Forall (fun _ d => is_model_dump d = true) fs.

(** The databases that serving requests leads to from an empty one. *)
Inductive reachable : gmap string dict → Prop :=
  | reachable_empty : reachable ∅
  | reachable_step env ep request fs fs' :
      reachable fs →
      (handle env ep request (Some fs)).2 = Some fs' →
      reachable fs'.

(* ===================================================================== *)
(** ** A small world to run the service in *)
(* ===================================================================== *)

(** A verifier that knows two tokens and rejects every other. *)
Definition example_verify (token : string) : result (gmap string string) :=
  if String.eqb token "token-u1" then Ok {[ "uid" := "u1" ]}
  else if String.eqb token "token-u2" then Ok {[ "uid" := "u2" ]}
  else Raise (InvalidIdTokenError "Could not verify token signature.").

Definition example_env (new_id : string) : Env :=
  {| verify_id_token := example_verify;
     now := "2024-05-02T10:00:00";
     auto_id := new_id |}.

Definition example_log : LogEntry :=
  {| taskDescription := "Write spec"; project := "Docs"; status := "done";
     priority := "high"; startTime := Some "09:00"; endTime := None;
     duration := None; comments := Some "first draft";
     date := "2024-05-01T09:00:00" |}.

Definition example_log_2 : LogEntry :=
  {| taskDescription := "Review"; project := "Docs"; status := "open";
     priority := "low"; startTime := None; endTime := None;
     duration := None; comments := None;
     date := "2024-04-30T17:30:00" |}.

(** A body with the four required fields only. *)
Definition example_body : dict :=
  <["taskDescription" := VStr "Review"]>
  (<["project" := VStr "Docs"]>
  (<["status" := VStr "open"]>
  (<["priority" := VStr "low"]> ∅))).

Definition example_request (authorization : option string) : Request :=
  {| headers :=
       match authorization with
       | Some h => {[ "authorization" := h ]}
       | None => ∅
       end;
     body := example_body |}.

(** The database after user [u1] created [example_log]. *)
Definition example_store : gmap string dict :=
  <[doc_path "u1" "doc1" := model_dump example_log]> ∅.


(* ===================================================================== *)
(** ** [str.join], the fields of the model *)
(* ===================================================================== *)

(** [sep.join(l)]. *)
Fixpoint join (sep : string) (l : list string) : string :=
  match l with
  | [] => ""
  | x :: l' =>
      match l' with
      | [] => x
      | _ :: _ => x +:+ sep +:+ join sep l'
      end
  end.

(** The names of the fields of [LogEntry]. *)
Definition LogEntry_fields : list string :=
  ["taskDescription"; "project"; "status"; "priority"; "startTime";
   "endTime"; "duration"; "comments"; "date"].

(** The classes that the first [except] clause of [get_current_user]
    names. *)
Definition is_token_error (e : exn) : bool :=
  match e with
  | IndexError _ | InvalidIdTokenError _ | ExpiredIdTokenError _ => true
  | _ => false
  end.

(* ===================================================================== *)
(** ** Initialisation of the Firebase client *)
(* ===================================================================== *)

(** What the module-level [try] block meets when the module is imported:
    the environment, the file system, [json.loads], the two ways of
    [credentials.Certificate], whether [firebase_admin._apps] already holds
    an app, [firebase_admin.initialize_app] and [firestore.client()]. [J] is
    the type of the parsed credentials, [C] that of a certificate. *)
Record Platform (J C : Type) := {
  getenv : string → option string;
  path_exists : string → bool;
  json_loads : string → result J;
  Certificate_dict : J → result C;
  Certificate_path : string → result C;
  apps : bool;
  initialize_app : C → result unit;
  firestore_client : result (gmap string dict)
}.
Arguments getenv {J C} _ _.
Arguments path_exists {J C} _ _.
Arguments json_loads {J C} _ _.
Arguments Certificate_dict {J C} _ _.
Arguments Certificate_path {J C} _ _.
Arguments apps {J C} _.
Arguments initialize_app {J C} _ _.
Arguments firestore_client {J C} _.

Definition key_file_missing : string :=
  "Firebase service account key file not found. " +:+
  "Please download it from your Firebase project settings and place it as 'serviceAccountKey.json' " +:+
  "or set the FIREBASE_CREDENTIALS environment variable.".

(** The first half of the [try] block: the certificate, from the
    environment variable when it is set and not empty, from the local file
    otherwise; with what it prints. [FileNotFoundError] is one of the other
    exception classes. *)
Definition load_credentials {J C} (p : Platform J C) : result C * list string :=
  match getenv p "FIREBASE_CREDENTIALS" with
  | Some (String _ _ as creds_json_str) =>
      match json_loads p creds_json_str with
      | Ok creds_dict =>
          match Certificate_dict p creds_dict with
          | Ok cred =>
              (Ok cred,
               ["Initializing Firebase Admin SDK from environment variable..."])
          | Raise e => (Raise e, [])
          end
      | Raise e => (Raise e, [])
      end
  | _ =>
      let cred_path := "serviceAccountKey.json" in
      if negb (path_exists p cred_path)
      then (Raise (OtherError key_file_missing), [])
      else
        match Certificate_path p cred_path with
        | Ok cred =>
            (Ok cred, ["Initializing Firebase Admin SDK from local file..."])
        | Raise e => (Raise e, [])
        end
  end.

(** The whole block: the value bound to [db] and the lines printed. *)
Definition firebase_initialization {J C} (p : Platform J C) : Db * list string :=
  let attempt : result (gmap string dict) * list string :=
    match load_credentials p with
    | (Ok cred, out) =>
        match (if negb (apps p) then initialize_app p cred else Ok tt) with
        | Ok _ =>
            match firestore_client p with
            | Ok fs =>
                (Ok fs,
                 (out ++ ["Firebase Admin SDK initialized successfully."])%list)
            | Raise e => (Raise e, out)
            end
        | Raise e => (Raise e, out)
        end
    | (Raise e, out) => (Raise e, out)
    end in
  match attempt with
  | (Ok fs, out) => (Some fs, out)
  | (Raise e, out) =>
      (None, (out ++ ["Error initializing Firebase Admin SDK: " +:+ str e])%list)
  end.

(** A platform for the examples: credentials are texts, every text parses,
    and a certificate is made from any of them. *)
Definition example_platform (variable : option string) (key_file : bool)
  : Platform string string :=
  {| getenv := fun name =>
       if String.eqb name "FIREBASE_CREDENTIALS" then variable else None;
     path_exists := fun path =>
       String.eqb path "serviceAccountKey.json" && key_file;
     json_loads := fun text =>
       if String.prefix "{" text then Ok text
       else Raise (OtherError "Expecting value: line 1 column 1 (char 0)");
     Certificate_dict := fun d => Ok d;
     Certificate_path := fun path => Ok path;
     apps := false;
     initialize_app := fun _ => Ok tt;
     firestore_client := Ok example_store |}.

(** The database with a document that another client wrote: a field that
    [LogEntry] does not have, and none of its optional ones. *)
Definition foreign_document : dict :=
  <["owner" := VStr "mobile-app"]> (model_dump example_log).

(* ===================================================================== *)
(** ** The service as the framework and the Firestore client run it *)
(* ===================================================================== *)

(** The Firestore client checks a path before it reads or writes: a
    collection path has an odd number of elements, a document path an even
    number ([verify_path]); otherwise it raises [ValueError], one of the
    other exception classes. The operations above are the client on the
    paths it accepts. *)
Fixpoint count_slashes (s : string) : nat :=
  match s with
  | EmptyString => O
  | String c s' => (if Ascii.eqb c "/" then 1 else 0) + count_slashes s'
  end.

(** [len(path.split("/"))] *)
Definition path_elements (path : string) : nat := S (count_slashes path).

Definition verify_path (is_collection : bool) (path : string) : result unit :=
  if is_collection then
    if Nat.even (path_elements path)
    then Raise (OtherError "A collection must have an odd number of path elements")
    else Ok tt
  else
    if Nat.odd (path_elements path)
    then Raise (OtherError "A document must have an even number of path elements")
    else Ok tt.

(** A decoded JSON value, as far as [LogEntry] tells values apart: null,
    a string, or anything else: a number (Python's [json] also decodes NaN,
    Infinity and numbers out of range, to floats that are not finite), a
    boolean, an array, an object. *)
Inductive json :=
  | JNull
  | JStr (s : string)
  | JOther.

(** The value that the validators of a model see: [VNum] stands for
    every value that is neither null nor a string. *)
Definition value_of (j : json) : value :=
  match j with
  | JNull => VNone
  | JStr s => VStr s
  | JOther => VNum 0
  end.

Definition json_of (v : value) : json :=
  match v with
  | VNone => JNull
  | VStr s => JStr s
  | VNum _ => JOther
  end.

(** What FastAPI makes of the body of a POST or PUT, before it runs the
    dependencies of the route: a decoded JSON object; another decoded value
    or no body, which the model refuses after the dependencies; bytes that
    [json] cannot decode, answered 422 at once; any other failure to read
    the body (bytes that are not UTF-8, for one), answered 400 at once. *)
Inductive Body :=
  | BodyObject (obj : gmap string json)
  | BodyOther
  | BodyDecodeError (msg : string)
  | BodyReadError.

Record HttpRequest := {
  http_headers : gmap string string;
  http_body : Body
}.

(** The path parameter [{log_id}] of a route is one path element that is
    not empty: the router hands no other to the handlers. *)
Definition routed (ep : Endpoint) : bool :=
  match ep with
  | PUT_logs i | DELETE_logs i => is_segment i
  | _ => true
  end.

(** The body of the request is not read (GET, DELETE) or is decoded. *)
Definition body_decoded (ep : Endpoint) (r : HttpRequest) : bool :=
  match ep with
  | POST_logs | PUT_logs _ =>
      match http_body r with
      | BodyDecodeError _ | BodyReadError => false
      | _ => true
      end
  | _ => true
  end.

Module Service.

(** A handler whose first statement asks the client for [path]: on a path
    that the client refuses, the [ValueError] is raised inside the [try] of
    the handler and leaves it as its 500. *)
Definition guarded {A} (text : string) (is_collection : bool) (path : string)
    (run : M A) : M A :=
  fun db =>
    match db, verify_path is_collection path with
    | Some _, Raise e => (Raise (HTTPException 500 (text +:+ str e)), db)
    | _, _ => run db
    end.

Definition create_log (env : Env) (log : LogEntry) (user_id : string)
  : M LogEntryResponse :=
  guarded "Failed to create log: " true (collection_path user_id)
    (create_log env log user_id).

Definition get_logs (env : Env) (user_id : string) : M (list LogEntryResponse) :=
  guarded "Failed to retrieve logs: " true (collection_path user_id)
    (get_logs env user_id).

Definition update_log (env : Env) (log_id : string) (log : LogEntry)
    (user_id : string) : M LogEntryResponse :=
  guarded "Failed to update log: " false (doc_path user_id log_id)
    (update_log env log_id log user_id).

Definition delete_log (env : Env) (log_id : string) (user_id : string) : M unit :=
  guarded "Failed to delete log: " false (doc_path user_id log_id)
    (delete_log env log_id user_id).

(** One request as the application answers it: the body of a POST or PUT
    is read first, then the dependency runs, then the body is validated,
    then the handler runs. *)
Definition serve (env : Env) (ep : Endpoint) (r : HttpRequest) : M Reply :=
  let request kw := {| headers := http_headers r; body := kw |} in
  let with_body (handler : dict → string → M Reply) : M Reply :=
    match http_body r with
    | BodyDecodeError msg => raise (RequestValidationError msg)
    | BodyReadError =>
        raise (HTTPException 400 "There was an error parsing the body")
    | BodyOther =>
        do _ <- get_current_user env (request ∅);
        raise (RequestValidationError "body: Field required")
    | BodyObject obj =>
        let kw := value_of <$> obj in
        do user_id <- get_current_user env (request kw);
        handler kw user_id
    end in
  match ep with
  | GET_root => ret (RMessage read_root)
  | POST_logs =>
      with_body (fun kw user_id =>
        do log <- body_LogEntry env (request kw);
        do r <- create_log env log user_id;
        ret (REntry r))
  | GET_logs =>
      do user_id <- get_current_user env (request ∅);
      do l <- get_logs env user_id;
      ret (REntries l)
  | PUT_logs log_id =>
      with_body (fun kw user_id =>
        do log <- body_LogEntry env (request kw);
        do r <- update_log env log_id log user_id;
        ret (REntry r))
  | DELETE_logs log_id =>
      do user_id <- get_current_user env (request ∅);
      delete_log env log_id user_id ;;
      ret RNoContent
  end.

(** The databases that serving requests leads to from an empty one. *)
Inductive reachable : Firestore → Prop :=
  | served_empty : reachable ∅
  | served_step env ep r fs fs' :
      reachable fs →
      routed ep = true →
      (serve env ep r (Some fs)).2 = Some fs' →
      reachable fs'.

End Service.

(** The request as the dependency and the validation of the body see it:
    the headers, and the decoded object (nothing when there is none). *)
Definition request_of (r : HttpRequest) : Request :=
  {| headers := http_headers r;
     body := match http_body r with
             | BodyObject obj => value_of <$> obj
             | _ => ∅
             end |}.

(** The request with the given Authorization header and body. *)
Definition http_request (authorization : option string) (b : Body) : HttpRequest :=
  {| http_headers :=
       match authorization with
       | Some h => {[ "authorization" := h ]}
       | None => ∅
       end;
     http_body := b |}.

(* ===================================================================== *)
(** * Properties *)
(* ===================================================================== *)

(** ** Strings and paths *)

Lemma string_app_assoc (a b c : string) : (a +:+ b) +:+ c = a +:+ (b +:+ c).
Proof.
  induction a as [|x a IH]; [reflexivity|].
  change (String x ((a +:+ b) +:+ c) = String x (a +:+ (b +:+ c))).
  by rewrite IH.
Qed.

Lemma string_app_cons (x : ascii) (a b : string) :
  String x a +:+ b = String x (a +:+ b).
Proof. reflexivity. Qed.

Lemma contains_cons sep c s :
  contains sep (String c s) = false →
  String.prefix sep (String c s) = false ∧ contains sep s = false.
Proof.
  intros H. change (contains sep (String c s))
    with (String.prefix sep (String c s) || contains sep s) in H.
  by apply orb_false_iff in H.
Qed.

Lemma split_go_no_separator sep cur s :
  contains sep s = false → split_go sep O cur s = [String.rev_app cur s].
Proof.
  revert cur. induction s as [|c s IH]; intros cur H; [reflexivity|].
  apply contains_cons in H as [Hp Hc].
  change (split_go sep 0 cur (String c s))
    with (if String.prefix sep (String c s)
          then String.rev cur :: split_go sep (Nat.pred (String.length sep)) "" s
          else split_go sep O (String c cur) s).
  rewrite Hp. by rewrite IH.
Qed.

(** A text without the separator is the only piece of its split. *)
Lemma split_no_separator s sep : contains sep s = false → split s sep = [s].
Proof. intros H. unfold split. by rewrite split_go_no_separator. Qed.

Lemma strip_prefix_app pre s : strip_prefix pre (pre +:+ s) = Some s.
Proof.
  induction pre as [|a pre IH]; [reflexivity|].
  rewrite string_app_cons. cbn [strip_prefix]. by rewrite Ascii.eqb_refl.
Qed.

Lemma strip_prefix_Some pre s r : strip_prefix pre s = Some r → s = pre +:+ r.
Proof.
  revert s. induction pre as [|a pre IH]; intros s H.
  - cbn in H. by inversion H.
  - destruct s as [|b s]; [discriminate|]. cbn [strip_prefix] in H.
    destruct (Ascii.eqb a b) eqn:E; [|discriminate].
    apply Ascii.eqb_eq in E as ->. rewrite string_app_cons. f_equal. by apply IH.
Qed.

Lemma child_id_Some cp p i :
  child_id cp p = Some i ↔ p = cp +:+ "/" +:+ i ∧ is_segment i = true.
Proof.
  unfold child_id. split.
  - destruct (strip_prefix (cp +:+ "/") p) as [r|] eqn:E; [|discriminate].
    destruct (is_segment r) eqn:Hr; [|discriminate].
    intros [= <-]. split; [|done].
    apply strip_prefix_Some in E. by rewrite E, string_app_assoc.
  - intros [-> Hi]. rewrite <- string_app_assoc, strip_prefix_app. by rewrite Hi.
Qed.

Lemma has_slash_app a b : has_slash (a +:+ b) = has_slash a || has_slash b.
Proof.
  induction a as [|x a IH]; [reflexivity|].
  rewrite string_app_cons. cbn [has_slash]. by rewrite IH, orb_assoc.
Qed.

Lemma is_segment_no_slash i : is_segment i = true → has_slash i = false.
Proof.
  unfold is_segment. intros [_ H]%andb_true_iff. by apply negb_true_iff in H.
Qed.

Lemma string_app_nil_l (s : string) : "" +:+ s = s.
Proof. reflexivity. Qed.

Lemma string_length_app (a b : string) :
  String.length (a +:+ b) = (String.length a + String.length b)%nat.
Proof.
  induction a as [|x a IH]; [reflexivity|].
  rewrite string_app_cons. cbn [String.length]. by rewrite IH.
Qed.

Lemma string_app_inj_r (a b c : string) : a +:+ c = b +:+ c → a = b.
Proof.
  revert b. induction a as [|x a IH]; intros [|y b] H.
  - done.
  - apply (f_equal String.length) in H.
    rewrite string_app_nil_l, string_app_cons in H. cbn [String.length] in H.
    rewrite string_length_app in H. lia.
  - apply (f_equal String.length) in H.
    rewrite string_app_nil_l, string_app_cons in H. cbn [String.length] in H.
    rewrite string_length_app in H. lia.
  - rewrite !string_app_cons in H. inversion H as [[Hx Hrest]].
    f_equal. by apply IH.
Qed.

(** A path has one way to be read as a collection and a last segment. *)
Lemma has_slash_app_slash a i : has_slash (a +:+ "/" +:+ i) = true.
Proof.
  rewrite has_slash_app.
  change (has_slash ("/" +:+ i)) with true. apply orb_true_r.
Qed.

Lemma path_split_unique a b i j :
  a +:+ "/" +:+ i = b +:+ "/" +:+ j →
  has_slash i = false → has_slash j = false → a = b ∧ i = j.
Proof.
  revert b. induction a as [|x a IH]; intros [|y b] H Hi Hj.
  - rewrite !string_app_nil_l in H. by inversion H.
  - rewrite string_app_nil_l, (string_app_cons y) in H.
    injection H as Hy Hrest. rewrite string_app_nil_l in Hrest.
    rewrite Hrest, has_slash_app_slash in Hi. discriminate.
  - rewrite string_app_nil_l, (string_app_cons x) in H.
    injection H as Hx Hrest. rewrite string_app_nil_l in Hrest.
    rewrite <- Hrest, has_slash_app_slash in Hj. discriminate.
  - rewrite (string_app_cons x), (string_app_cons y) in H.
    injection H as Hx Hrest.
    destruct (IH b Hrest Hi Hj) as [-> ->]. by subst.
Qed.

Lemma doc_path_collection_path user_id log_id :
  doc_path user_id log_id = collection_path user_id +:+ "/" +:+ log_id.
Proof.
  unfold doc_path, collection_path.
  rewrite !string_app_assoc. reflexivity.
Qed.

(** The collection path determines the user: no two users share one. *)
Lemma collection_path_inj a b : collection_path a = collection_path b → a = b.
Proof.
  unfold collection_path, appId. intros H.
  do 3 apply (inj (String.app _)) in H.
  by apply string_app_inj_r in H.
Qed.

(** ** The documents of a collection *)

Lemma elem_of_collection_items cp fs i d :
  (i, d) ∈ collection_items cp fs ↔
  is_segment i = true ∧ fs !! (cp +:+ "/" +:+ i) = Some d.
Proof.
  unfold collection_items. rewrite list_elem_of_omap. split.
  - intros ([p d'] & Hin & Hf). cbn in Hf.
    destruct (child_id cp p) as [j|] eqn:E; [|discriminate].
    simplify_eq. apply child_id_Some in E as [-> Hi].
    by apply elem_of_map_to_list in Hin.
  - intros [Hi Hl]. exists (cp +:+ "/" +:+ i, d). split.
    + by apply elem_of_map_to_list.
    + cbn. by rewrite (proj2 (child_id_Some cp _ i) (conj eq_refl Hi)).
Qed.

Lemma collection_items_NoDup cp fs : NoDup (collection_items cp fs).*1.
Proof.
  unfold collection_items.
  pose proof (NoDup_fst_map_to_list fs) as Hnd.
  induction (map_to_list fs) as [|[p d] l IH]; [constructor|].
  cbn in Hnd. apply NoDup_cons in Hnd as [Hp Hnd].
  cbn. destruct (child_id cp p) as [i|] eqn:E; [|by apply IH].
  cbn. apply NoDup_cons. split; [|by apply IH].
  intros Hin. apply Hp.
  apply list_elem_of_fmap in Hin as ([i' d'] & Hi & Hin). cbn in Hi. subst i'.
  apply list_elem_of_omap in Hin as ([p' d''] & Hin & Hf). cbn in Hf.
  destruct (child_id cp p') as [j|] eqn:E'; [|discriminate].
  simplify_eq.
  apply child_id_Some in E as [-> _]. apply child_id_Some in E' as [-> _].
  apply list_elem_of_fmap. by exists (cp +:+ "/" +:+ i, d').
Qed.

(** The collection [cp] holds under [i] what the database holds under the
    path [cp/i]. *)
Lemma lookup_collection cp fs i :
  collection cp fs !! i =
  if is_segment i then fs !! (cp +:+ "/" +:+ i) else None.
Proof.
  apply option_eq. intros d. unfold collection.
  rewrite <- (elem_of_list_to_map _ _ _ (collection_items_NoDup cp fs)).
  rewrite elem_of_collection_items.
  destruct (is_segment i); intuition congruence.
Qed.

Lemma collection_insert cp fs i d :
  is_segment i = true →
  collection cp (<[cp +:+ "/" +:+ i := d]> fs) = <[i := d]> (collection cp fs).
Proof.
  intros Hi. apply map_eq. intros j.
  rewrite lookup_collection. destruct (decide (i = j)) as [<-|Hne].
  - by rewrite Hi, !lookup_insert_eq.
  - rewrite (lookup_insert_ne (collection cp fs)) by done.
    rewrite lookup_collection. destruct (is_segment j); [|done].
    rewrite lookup_insert_ne; [done|].
    intros Heq. by apply (inj (String.app _)), (inj (String.app _)) in Heq.
Qed.

Lemma collection_delete cp fs i :
  collection cp (delete (cp +:+ "/" +:+ i) fs) = delete i (collection cp fs).
Proof.
  apply map_eq. intros j.
  rewrite lookup_collection. destruct (decide (i = j)) as [<-|Hne].
  - rewrite !lookup_delete_eq. by destruct (is_segment i).
  - rewrite (lookup_delete_ne (collection cp fs)) by done.
    rewrite lookup_collection. destruct (is_segment j); [|done].
    rewrite lookup_delete_ne; [done|].
    intros Heq. by apply (inj (String.app _)), (inj (String.app _)) in Heq.
Qed.

(** A write under another collection leaves this one as it was. *)
Lemma collection_insert_other cp cp' fs i d :
  cp ≠ cp' → is_segment i = true →
  collection cp' (<[cp +:+ "/" +:+ i := d]> fs) = collection cp' fs.
Proof.
  intros Hne Hi. apply map_eq. intros j. rewrite !lookup_collection.
  destruct (is_segment j) eqn:Hj; [|done].
  rewrite lookup_insert_ne; [done|].
  intros Heq. apply path_split_unique in Heq as [? ?];
    auto using is_segment_no_slash.
Qed.

(** ** The order of a listing *)

Lemma value_leb_total a b : value_leb a b = true ∨ value_leb b a = true.
Proof.
  destruct a as [|s|m], b as [|t|n]; cbn; auto.
  - apply String.leb_total.
  - destruct (Z.leb_spec m n); [auto|]. right. apply Z.leb_le. lia.
Qed.

Lemma string_leb_trans a b c :
  String.leb a b = true → String.leb b c = true → String.leb a c = true.
Proof.
  intros H1 H2. apply Is_true_true.
  apply Is_true_true in H1, H2.
  exact (transitivity (R:=String.le) H1 H2).
Qed.

Lemma string_leb_refl a : String.leb a a = true.
Proof. apply Is_true_true. exact (reflexivity (R:=String.le) a). Qed.

Lemma value_leb_trans a b c :
  value_leb a b = true → value_leb b c = true → value_leb a c = true.
Proof.
  destruct a as [|s|m], b as [|t|n], c as [|u|k]; cbn; try done.
  - apply string_leb_trans.
  - rewrite !Z.leb_le. lia.
Qed.

Lemma value_leb_antisym a b :
  value_leb a b = true → value_leb b a = true → a = b.
Proof.
  destruct a as [|s|m], b as [|t|n]; cbn; try done.
  - intros H1 H2. f_equal. by apply String.leb_antisym.
  - rewrite !Z.leb_le. intros. f_equal. lia.
Qed.

#[global] Instance descending_total field : Total (descending field).
Proof.
  intros x y. unfold descending, snapshot_leb.
  destruct (x.2 !! field) as [a|], (y.2 !! field) as [b|]; auto.
  rewrite (bool_decide_ext (b = a) (a = b)) by naive_solver.
  case_bool_decide.
  - destruct (String.leb_total x.1 y.1); auto.
  - destruct (value_leb_total a b); auto.
Qed.

#[global] Instance descending_trans field : Transitive (descending field).
Proof.
  intros z y x. unfold descending, snapshot_leb.
  destruct (x.2 !! field) as [a|]; [|done].
  destruct (y.2 !! field) as [b|]; [|done].
  destruct (z.2 !! field) as [c|]; [|done].
  repeat case_bool_decide; subst; try done.
  - intros ? ?. eauto using string_leb_trans.
  - intros ? ?. exfalso. eauto using value_leb_antisym.
  - intros ? ?. eauto using value_leb_trans.
Qed.

Lemma string_ltb_not_leb a b : String.ltb a b = true → String.leb b a = false.
Proof.
  unfold String.ltb, String.leb. rewrite (String.compare_antisym a b).
  by destruct (String.compare b a).
Qed.

(** ** The models *)

Arguments model_dump : simpl never.

Lemma LogEntry_init_model_dump now log :
  LogEntry_init now (model_dump log) = Ok log.
Proof.
  destruct log as [td pj st pr [t0|] [t1|] [du|] [cm|] dt]; reflexivity.
Qed.

Lemma model_dump_no_id log : model_dump log !! "id" = None.
Proof. reflexivity. Qed.

Lemma LogEntryResponse_init_model_dump now i log :
  LogEntryResponse_init now i (model_dump log) = Ok {| entry := log; id := i |}.
Proof.
  unfold LogEntryResponse_init.
  by rewrite model_dump_no_id, LogEntry_init_model_dump.
Qed.

#[global] Instance model_dump_inj : Inj (=) (=) model_dump.
Proof.
  intros l1 l2 H. apply (f_equal (LogEntry_init "")) in H.
  rewrite !LogEntry_init_model_dump in H. by injection H.
Qed.

Lemma dom_model_dump log :
  dom (model_dump log) =
  ({[ "taskDescription"; "project"; "status"; "priority"; "startTime";
      "endTime"; "duration"; "comments"; "date" ]} : gset string).
Proof. unfold model_dump. rewrite !dom_insert_L, dom_empty_L. set_solver. Qed.

(** Writing the dump of one entry over the dump of another leaves nothing
    of the other: both have the same nine keys. *)
Lemma model_dump_union log prev :
  model_dump log ∪ model_dump prev = model_dump log.
Proof.
  apply map_eq. intros k. rewrite lookup_union.
  destruct (model_dump log !! k) as [v|] eqn:E.
  - by destruct (model_dump prev !! k).
  - apply not_elem_of_dom in E. rewrite dom_model_dump in E.
    rewrite <- (dom_model_dump prev) in E. apply not_elem_of_dom in E.
    by rewrite E.
Qed.

Lemma model_dump_date log : model_dump log !! "date" = Some (VStr (date log)).
Proof. reflexivity. Qed.

(** ** The handlers, as equations *)

(** Running a handler on a given database: the operations of the monad and
    of the client unfold to pairs of an answer and a database. *)
Create HintDb run_db discriminated.
#[local] Hint Unfold try_except bind ret raise lift put client db_is_None
  document collection_document doc_get doc_set doc_update doc_delete
  order_by_descending_stream response_of_snapshot : run_db.

Ltac run_handler := autounfold with run_db; cbn.

Lemma create_log_eq env log user_id fs :
  create_log env log user_id (Some fs) =
  (Ok {| entry := log; id := auto_id env |},
   Some (<[collection_path user_id +:+ "/" +:+ auto_id env := model_dump log]> fs)).
Proof.
  unfold create_log. run_handler.
  by rewrite LogEntryResponse_init_model_dump.
Qed.

Lemma update_log_missing env log_id log user_id fs :
  fs !! doc_path user_id log_id = None →
  update_log env log_id log user_id (Some fs) =
  (Raise (HTTPException 500 "Failed to update log: 404: Log not found"), Some fs).
Proof.
  intros H. unfold update_log. run_handler. by rewrite H.
Qed.

Lemma delete_log_missing env log_id user_id fs :
  fs !! doc_path user_id log_id = None →
  delete_log env log_id user_id (Some fs) =
  (Raise (HTTPException 500 "Failed to delete log: 404: Log not found"), Some fs).
Proof.
  intros H. unfold delete_log. run_handler. by rewrite H.
Qed.

Lemma update_log_existing env log_id log user_id fs old :
  fs !! doc_path user_id log_id = Some old →
  update_log env log_id log user_id (Some fs) =
  (match LogEntryResponse_init (now env) log_id (model_dump log ∪ old) with
   | Ok r => Ok r
   | Raise e => Raise (HTTPException 500 ("Failed to update log: " +:+ str e))
   end,
   Some (<[doc_path user_id log_id := model_dump log ∪ old]> fs)).
Proof.
  intros H. unfold update_log. run_handler.
  rewrite H. cbn. rewrite H. cbn. rewrite lookup_insert_eq.
  by destruct (LogEntryResponse_init _ _ _).
Qed.

Lemma delete_log_existing env log_id user_id fs old :
  fs !! doc_path user_id log_id = Some old →
  delete_log env log_id user_id (Some fs) =
  (Ok tt, Some (delete (doc_path user_id log_id) fs)).
Proof.
  intros H. unfold delete_log. run_handler. by rewrite H.
Qed.


(** ** Listings *)

#[global] Instance doc_of_inj : Inj (=) (=) doc_of.
Proof.
  intros [e1 i1] [e2 i2] H.
  pose proof (f_equal fst H) as Hi. pose proof (f_equal snd H) as He.
  cbn in Hi, He. apply (inj model_dump) in He. by subst.
Qed.

Lemma is_model_dump_spec d : is_model_dump d = true ↔ ∃ log, d = model_dump log.
Proof.
  unfold is_model_dump. split.
  - destruct (LogEntry_init "" d) as [log|]; [|discriminate].
    intros H%bool_decide_eq_true. by exists log.
  - intros [log ->]. rewrite LogEntry_init_model_dump.
    by apply bool_decide_eq_true.
Qed.

Lemma is_model_dump_model_dump log : is_model_dump (model_dump log) = true.
Proof. apply is_model_dump_spec. by exists log. Qed.

Lemma store_ok_namespace_ok user_id fs : store_ok fs → namespace_ok user_id fs.
Proof.
  intros H i d Hl. rewrite lookup_collection in Hl.
  destruct (is_segment i); [|discriminate]. by apply (H _ _ Hl).
Qed.

Lemma get_logs_eq env user_id fs :
  get_logs env user_id (Some fs) =
  (match logs_of_docs (now env) (listing (collection_path user_id) fs) with
   | Ok l => Ok l
   | Raise e => Raise (HTTPException 500 ("Failed to retrieve logs: " +:+ str e))
   end, Some fs).
Proof.
  unfold get_logs. run_handler. fold (listing (collection_path user_id) fs).
  by destruct (logs_of_docs _ _).
Qed.

Lemma logs_of_docs_ok now docs :
  Forall (fun x : string * dict => ∃ log, x.2 = model_dump log) docs →
  ∃ logs, logs_of_docs now docs = Ok logs ∧ doc_of <$> logs = docs.
Proof.
  induction 1 as [|[i d] docs [log Hd] _ (logs & Hl & Hm)].
  - by exists [].
  - cbn in Hd. subst d. exists ({| entry := log; id := i |} :: logs).
    cbn. rewrite LogEntryResponse_init_model_dump. cbn. rewrite Hl. cbn.
    split; [done|]. by rewrite Hm.
Qed.

Lemma listing_Permutation cp fs :
  listing cp fs ≡ₚ
  filter (fun x : string * dict => is_Some (x.2 !! "date"))
         (map_to_list (collection cp fs)).
Proof. apply merge_sort_Permutation. Qed.

Lemma elem_of_listing cp fs x :
  x ∈ listing cp fs ↔
  is_Some (x.2 !! "date") ∧ is_segment x.1 = true ∧
  fs !! (cp +:+ "/" +:+ x.1) = Some x.2.
Proof.
  rewrite listing_Permutation, list_elem_of_filter.
  destruct x as [i d]. rewrite elem_of_map_to_list, lookup_collection. cbn.
  destruct (is_segment i); intuition congruence.
Qed.

Lemma listing_sorted cp fs : StronglySorted (descending "date") (listing cp fs).
Proof. apply StronglySorted_merge_sort; apply _. Qed.

Lemma listing_NoDup cp fs : NoDup (listing cp fs).*1.
Proof.
  apply NoDup_fmap_fst.
  - intros i d1 d2 H1 H2. apply elem_of_listing in H1 as (_ & _ & H1).
    apply elem_of_listing in H2 as (_ & _ & H2). cbn in *. congruence.
  - rewrite listing_Permutation. apply NoDup_filter, NoDup_map_to_list.
Qed.

(** On a well-formed namespace [get_logs] succeeds, writes nothing, and
    returns the streamed documents as entries. *)
Lemma get_logs_spec env user_id fs :
  namespace_ok user_id fs →
  ∃ logs, get_logs env user_id (Some fs) = (Ok logs, Some fs) ∧
          doc_of <$> logs = listing (collection_path user_id) fs.
Proof.
  intros Hok. rewrite get_logs_eq.
  destruct (logs_of_docs_ok (now env) (listing (collection_path user_id) fs))
    as (logs & Hl & Hm).
  - apply Forall_forall. intros [i d] Hin.
    apply elem_of_listing in Hin as (_ & Hi & Hd). cbn in *.
    apply is_model_dump_spec, (Hok i d). by rewrite lookup_collection, Hi.
  - exists logs. by rewrite Hl.
Qed.

Lemma elem_of_logs user_id fs logs r :
  doc_of <$> logs = listing (collection_path user_id) fs →
  r ∈ logs ↔
  is_segment (id r) = true ∧
  fs !! doc_path user_id (id r) = Some (model_dump (entry r)).
Proof.
  intros Hm. rewrite <- (list_elem_of_fmap_inj doc_of), Hm, elem_of_listing.
  rewrite doc_path_collection_path. cbn. rewrite model_dump_date.
  intuition eauto.
Qed.

Lemma descending_doc_of r1 r2 :
  descending "date" (doc_of r1) (doc_of r2) →
  String.leb (date (entry r2)) (date (entry r1)) = true.
Proof.
  unfold descending, snapshot_leb, doc_of. cbn. rewrite !model_dump_date.
  case_bool_decide as E; [|done].
  intros _. injection E as ->. apply string_leb_refl.
Qed.

Lemma logs_sorted user_id fs logs :
  doc_of <$> logs = listing (collection_path user_id) fs →
  StronglySorted
    (fun r1 r2 => String.leb (date (entry r2)) (date (entry r1)) = true) logs.
Proof.
  intros Hm. pose proof (listing_sorted (collection_path user_id) fs) as Hs.
  rewrite <- Hm in Hs. clear Hm.
  induction logs as [|r logs IH]; [constructor|].
  cbn in Hs. apply StronglySorted_inv in Hs as [Hs Hall].
  constructor; [by apply IH|].
  rewrite Forall_fmap in Hall. eapply Forall_impl; [exact Hall|].
  intros r2 Hr2. by apply descending_doc_of.
Qed.

Lemma logs_NoDup_id user_id fs logs :
  doc_of <$> logs = listing (collection_path user_id) fs →
  NoDup (id <$> logs).
Proof.
  intros Hm. pose proof (listing_NoDup (collection_path user_id) fs) as Hn.
  rewrite <- Hm, <- list_fmap_compose in Hn. exact Hn.
Qed.

(** ** The dependency [get_current_user] *)

Arguments headers_get : simpl never.

Lemma get_current_user_db_None env request :
  get_current_user env request None =
  (Raise (HTTPException 500 "Firebase connection not available."), None).
Proof. reflexivity. Qed.

Lemma get_current_user_missing env request fs :
  headers_get request "Authorization" = None →
  get_current_user env request (Some fs) =
  (Raise (HTTPException 401 "Authorization header missing"), Some fs).
Proof.
  intros H. unfold get_current_user, bind, db_is_None, raise. cbn.
  by rewrite H.
Qed.

(** What the [try] block of [get_current_user] computes from the header. *)
Lemma get_current_user_header env request fs h :
  headers_get request "Authorization" = Some h → h ≠ "" →
  get_current_user env request (Some fs) =
  (match
     (try id_token <- list_getitem (split h "Bearer ") 1;
      try decoded_token <- verify_id_token env id_token;
      dict_getitem decoded_token "uid")
   with
   | Ok uid => Ok uid
   | Raise e =>
       match e with
       | IndexError _ | InvalidIdTokenError _ | ExpiredIdTokenError _ =>
           Raise (HTTPException 401
                    ("Invalid or expired authentication token: " +:+ str e))
       | _ =>
           Raise (HTTPException 500
                    ("An error occurred during token verification: " +:+ str e))
       end
   end, Some fs).
Proof.
  intros H Hne. unfold get_current_user, bind, db_is_None, raise. cbn.
  rewrite H. destruct h as [|c h]; [done|].
  unfold try_except, bind, lift, raise, result_bind. cbn.
  destruct (list_getitem _ 1) as [tok|e]; cbn.
  - destruct (verify_id_token env tok) as [dec|e]; cbn.
    + destruct (dict_getitem dec "uid") as [u|e]; cbn; [done|].
      by destruct e.
    + by destruct e.
  - by destruct e.
Qed.

(** The dependency never writes, and reads of [db] only whether it is
    [None]. *)
Lemma get_current_user_state env request db :
  (get_current_user env request db).2 = db.
Proof.
  destruct db as [fs|]; [|reflexivity].
  destruct (headers_get request "Authorization") as [h|] eqn:E.
  - destruct (decide (h = "")) as [->|Hne].
    + unfold get_current_user, bind, db_is_None, raise. cbn. by rewrite E.
    + by rewrite (get_current_user_header _ _ _ _ E Hne).
  - by rewrite get_current_user_missing.
Qed.

Lemma get_current_user_independent env request fs fs' :
  (get_current_user env request (Some fs)).1 =
  (get_current_user env request (Some fs')).1.
Proof.
  destruct (headers_get request "Authorization") as [h|] eqn:E.
  - destruct (decide (h = "")) as [->|Hne].
    + unfold get_current_user, bind, db_is_None, raise. cbn. by rewrite E.
    + by rewrite !(get_current_user_header _ _ _ _ E Hne).
  - by rewrite !get_current_user_missing.
Qed.

Lemma string_prefix_app p s : String.prefix p (p +:+ s) = true.
Proof.
  induction p as [|c p IH]; [by destruct s|].
  rewrite string_app_cons. cbn. by destruct (ascii_dec c c).
Qed.

(** A request whose dependency fails never reaches its handler. *)
Lemma handle_auth_failure env ep request db e :
  is_logs_route ep = true →
  (get_current_user env request db).1 = Raise e →
  handle env ep request db = (Raise e, db).
Proof.
  intros Hep He. pose proof (get_current_user_state env request db) as Hs.
  destruct (get_current_user env request db) as [r db'] eqn:E.
  cbn in He, Hs. subst r db'.
  destruct ep; [discriminate| | | |]; unfold handle, bind; by rewrite E.
Qed.

(** C9. GET / answers the fixed welcome message with status 200, whatever
    the headers of the request, whatever the verifier would say, and
    whatever the database holds or whether there is one; it leaves the
    database as it was. *)
Theorem read_root_is_static env request db :
  handle env GET_root request db =
    (Ok (RMessage {[ "message" := "Welcome to the Daily Progress Log API!" ]}), db)
  ∧ response_status GET_root (handle env GET_root request db).1 = 200.
Proof. split; reflexivity. Qed.

(** ** Update and delete *)

(** C2. Code: for an identifier with no document in the user's namespace,
    [update_log] and [delete_log] raise the 404 inside their own [try], and
    the [except Exception] of the same handler turns it into a 500: the
    caller is answered 500, never 404. *)
Theorem missing_log_is_answered_500 env user_id log_id log fs :
  fs !! doc_path user_id log_id = None →
  update_log env log_id log user_id (Some fs) =
    (Raise (HTTPException 500 "Failed to update log: 404: Log not found"), Some fs)
  ∧ delete_log env log_id user_id (Some fs) =
    (Raise (HTTPException 500 "Failed to delete log: 404: Log not found"), Some fs)
  ∧ response_status (PUT_logs log_id)
      (update_log env log_id log user_id (Some fs)).1 = 500
  ∧ response_status (DELETE_logs log_id)
      (delete_log env log_id user_id (Some fs)).1 = 500.
Proof.
  intros H. rewrite (update_log_missing _ _ _ _ _ H).
  rewrite (delete_log_missing _ _ _ _ H). repeat split.
Qed.

Lemma missing_log_is_answered_500_witness :
  example_store !! doc_path "u1" "nope" = None
  ∧ response_status (PUT_logs "nope")
      (update_log (example_env "doc2") "nope" example_log_2 "u1"
         (Some example_store)).1 = 500.
Proof.
  split; [reflexivity|].
  apply (missing_log_is_answered_500 (example_env "doc2") "u1" "nope"
           example_log_2 example_store).
  reflexivity.
Defined.

(** After a delete that succeeded, the same identifier is missing: update
    and delete on it take the path above. *)
Lemma deleted_log_is_missing env user_id log_id fs old :
  fs !! doc_path user_id log_id = Some old →
  ∃ fs', delete_log env log_id user_id (Some fs) = (Ok tt, Some fs')
         ∧ fs' !! doc_path user_id log_id = None.
Proof.
  intros H. exists (delete (doc_path user_id log_id) fs).
  rewrite (delete_log_existing _ _ _ _ _ H). split; [done|].
  apply lookup_delete_eq.
Qed.

(** C10. For an identifier with no document in the user's namespace,
    update and delete fail and leave the database exactly as it was. *)
Theorem failing_mutation_writes_nothing env user_id log_id log fs :
  fs !! doc_path user_id log_id = None →
  (∃ e, (update_log env log_id log user_id (Some fs)).1 = Raise e)
  ∧ (update_log env log_id log user_id (Some fs)).2 = Some fs
  ∧ (∃ e, (delete_log env log_id user_id (Some fs)).1 = Raise e)
  ∧ (delete_log env log_id user_id (Some fs)).2 = Some fs.
Proof.
  intros H. rewrite (update_log_missing _ _ _ _ _ H).
  rewrite (delete_log_missing _ _ _ _ H). cbn. repeat split; eauto.
Qed.

Lemma failing_mutation_writes_nothing_witness :
  example_store !! doc_path "u2" "doc1" = None
  ∧ (update_log (example_env "doc2") "doc1" example_log_2 "u2"
       (Some example_store)).2 = Some example_store
  ∧ (delete_log (example_env "doc2") "doc1" "u2" (Some example_store)).2
    = Some example_store.
Proof.
  split; [reflexivity|].
  destruct (failing_mutation_writes_nothing (example_env "doc2") "u2" "doc1"
              example_log_2 example_store eq_refl) as (_ & Hu & _ & Hd).
  exact (conj Hu Hd).
Defined.

Lemma update_log_model_dump env log_id log user_id fs prev :
  fs !! doc_path user_id log_id = Some (model_dump prev) →
  update_log env log_id log user_id (Some fs) =
  (Ok {| entry := log; id := log_id |},
   Some (<[doc_path user_id log_id := model_dump log]> fs)).
Proof.
  intros H. rewrite (update_log_existing _ _ _ _ _ _ H).
  by rewrite model_dump_union, LogEntryResponse_init_model_dump.
Qed.

Lemma LogEntry_init_optional now kw log f :
  LogEntry_init now kw = Ok log →
  f ∈ ["startTime"; "endTime"; "duration"; "comments"] →
  kw !! f = None → model_dump log !! f = Some VNone.
Proof.
  unfold LogEntry_init, result_bind. intros H Hf Hk.
  destruct (required_str kw "taskDescription"); [|discriminate].
  destruct (required_str kw "project"); [|discriminate].
  destruct (required_str kw "status"); [|discriminate].
  destruct (required_str kw "priority"); [|discriminate].
  destruct (optional_str kw "startTime") as [t0|] eqn:E0; [|discriminate].
  destruct (optional_str kw "endTime") as [t1|] eqn:E1; [|discriminate].
  destruct (optional_str kw "duration") as [du|] eqn:E2; [|discriminate].
  destruct (optional_str kw "comments") as [cm|] eqn:E3; [|discriminate].
  destruct (defaulted_str kw "date" now); [|discriminate].
  injection H as <-. unfold optional_str in *.
  repeat (apply elem_of_cons in Hf as [->|Hf]);
    [rewrite Hk in E0 | rewrite Hk in E1 | rewrite Hk in E2 | rewrite Hk in E3
    | by apply elem_of_nil in Hf]; by simplify_eq.
Qed.

Lemma LogEntry_init_date now kw log :
  LogEntry_init now kw = Ok log →
  kw !! "date" = None → model_dump log !! "date" = Some (VStr now).
Proof.
  unfold LogEntry_init, result_bind. intros H Hk.
  destruct (required_str kw "taskDescription"); [|discriminate].
  destruct (required_str kw "project"); [|discriminate].
  destruct (required_str kw "status"); [|discriminate].
  destruct (required_str kw "priority"); [|discriminate].
  destruct (optional_str kw "startTime"); [|discriminate].
  destruct (optional_str kw "endTime"); [|discriminate].
  destruct (optional_str kw "duration"); [|discriminate].
  destruct (optional_str kw "comments"); [|discriminate].
  unfold defaulted_str in H. rewrite Hk in H. by injection H as <-.
Qed.

(** C3. PUT /logs/{id} on a document that this API wrote replaces it as a
    whole: the stored document becomes the dump of the submitted entry and
    the answer is that entry under the same id, whatever the previous
    document held. A field the body leaves out is stored with its default
    ([None], or the time of the request for [date]), not with its previous
    value. *)
Theorem update_is_full_overwrite env request log_id user_id log prev fs :
  get_current_user env request (Some fs) = (Ok user_id, Some fs) →
  LogEntry_init (now env) (body request) = Ok log →
  fs !! doc_path user_id log_id = Some (model_dump prev) →
  handle env (PUT_logs log_id) request (Some fs) =
    (Ok (REntry {| entry := log; id := log_id |}),
     Some (<[doc_path user_id log_id := model_dump log]> fs))
  ∧ (∀ f, f ∈ ["startTime"; "endTime"; "duration"; "comments"] →
          body request !! f = None → model_dump log !! f = Some VNone)
  ∧ (body request !! "date" = None →
     model_dump log !! "date" = Some (VStr (now env))).
Proof.
  intros Hu Hb Hp. split; [|split].
  - unfold handle, bind, body_LogEntry. rewrite Hu, Hb. unfold ret at 1.
    by rewrite (update_log_model_dump _ _ _ _ _ _ Hp).
  - intros f Hf Hk. by apply (LogEntry_init_optional _ _ _ _ Hb).
  - intros Hk. by apply (LogEntry_init_date _ _ _ Hb).
Qed.

Lemma update_is_full_overwrite_witness :
  let env := example_env "doc2" in
  let request := example_request (Some "Bearer token-u1") in
  let log :=
    {| taskDescription := "Review"; project := "Docs"; status := "open";
       priority := "low"; startTime := None; endTime := None;
       duration := None; comments := None; date := "2024-05-02T10:00:00" |} in
  get_current_user env request (Some example_store) = (Ok "u1", Some example_store)
  ∧ LogEntry_init (now env) (body request) = Ok log
  ∧ example_store !! doc_path "u1" "doc1" = Some (model_dump example_log)
  ∧ handle env (PUT_logs "doc1") request (Some example_store) =
      (Ok (REntry {| entry := log; id := "doc1" |}),
       Some (<[doc_path "u1" "doc1" := model_dump log]> example_store)).
Proof.
  cbv zeta. split; [reflexivity|]. split; [reflexivity|]. split; [reflexivity|].
  apply (update_is_full_overwrite (example_env "doc2")
           (example_request (Some "Bearer token-u1")) "doc1" "u1" _
           example_log example_store); reflexivity.
Defined.

(** C7. Applying [update_log] a second time with the same record leaves
    the database as the first application left it: whether the document
    exists or not, and whatever the clock of the second request. *)
Theorem update_is_idempotent env1 env2 log_id log user_id db :
  let once := update_log env1 log_id log user_id db in
  let twice := update_log env2 log_id log user_id once.2 in
  twice.2 = once.2.
Proof.
  cbv zeta. destruct db as [fs|]; [|reflexivity].
  destruct (fs !! doc_path user_id log_id) as [old|] eqn:E.
  - rewrite (update_log_existing _ _ _ _ _ _ E). cbn [snd].
    rewrite (update_log_existing _ _ _ _
               (<[doc_path user_id log_id := model_dump log ∪ old]> fs)
               (model_dump log ∪ old)) by apply lookup_insert_eq.
    cbn [snd]. rewrite insert_insert_eq.
    by rewrite (assoc_L (∪)), (idemp_L (∪)).
  - rewrite (update_log_missing _ _ _ _ _ E). cbn [snd].
    by rewrite (update_log_missing _ _ _ _ _ E).
Qed.

(** On a document that this API wrote, the second application also gives
    the answer of the first. *)
Lemma update_twice_same_answer env1 env2 log_id log user_id fs prev :
  fs !! doc_path user_id log_id = Some (model_dump prev) →
  update_log env2 log_id log user_id
    (update_log env1 log_id log user_id (Some fs)).2
  = update_log env1 log_id log user_id (Some fs).
Proof.
  intros H. rewrite (update_log_model_dump _ _ _ _ _ _ H). cbn [snd].
  rewrite (update_log_model_dump _ _ _ _ _ log) by apply lookup_insert_eq.
  by rewrite insert_insert_eq.
Qed.

(** ** The documents of the database stay those of this API *)

Lemma store_ok_empty : store_ok ∅.
Proof. apply map_Forall_empty. Qed.

Lemma state_of_failed_dependency env request db r db' :
  get_current_user env request db = (r, db') → db' = db.
Proof. intros H. by rewrite <- (get_current_user_state env request db), H. Qed.

(** The two ways of the dependency of a route: it gives the user [u] and
    the handler runs, or it fails and the database is as before. *)
Ltac dependency env request fs u :=
  let E := fresh "E" in
  destruct (get_current_user env request (Some fs)) as [[u|?] ?] eqn:E;
  apply state_of_failed_dependency in E as ->; [|by exists fs].

Lemma handle_preserves_store_ok env ep request fs :
  store_ok fs →
  ∃ fs', (handle env ep request (Some fs)).2 = Some fs' ∧ store_ok fs'.
Proof.
  intros Hok.
  destruct ep as [| | |log_id|log_id]; unfold handle, bind.
  - exists fs. by split.
  - dependency env request fs u.
    unfold body_LogEntry.
    destruct (LogEntry_init (now env) (body request)) as [log|e];
      [|by exists fs].
    unfold ret at 1. rewrite create_log_eq. eexists. split; [reflexivity|].
    apply map_Forall_insert_2; [apply is_model_dump_model_dump|done].
  - dependency env request fs u.
    rewrite get_logs_eq. exists fs. split; [|done].
    by destruct (logs_of_docs _ _).
  - dependency env request fs u.
    unfold body_LogEntry.
    destruct (LogEntry_init (now env) (body request)) as [log|e];
      [|by exists fs].
    unfold ret at 1.
    destruct (fs !! doc_path u log_id) as [old|] eqn:El.
    + destruct (proj1 (is_model_dump_spec old) (Hok _ _ El)) as [prev ->].
      rewrite (update_log_model_dump _ _ _ _ _ _ El).
      eexists. split; [reflexivity|].
      apply map_Forall_insert_2; [apply is_model_dump_model_dump|done].
    + rewrite (update_log_missing _ _ _ _ _ El). by exists fs.
  - dependency env request fs u.
    destruct (fs !! doc_path u log_id) as [old|] eqn:El.
    + rewrite (delete_log_existing _ _ _ _ _ El).
      eexists. split; [reflexivity|]. by apply map_Forall_delete.
    + rewrite (delete_log_missing _ _ _ _ El). by exists fs.
Qed.

(** Every database that the service reaches holds documents of this API
    only, in every namespace. *)
Lemma reachable_store_ok fs : reachable fs → store_ok fs.
Proof.
  induction 1 as [|env ep request fs fs' _ IH Hstep]; [apply store_ok_empty|].
  destruct (handle_preserves_store_ok env ep request fs IH) as (fs'' & Hs & Hok).
  rewrite Hs in Hstep. by injection Hstep as <-.
Qed.

Lemma reachable_namespace_ok user_id fs : reachable fs → namespace_ok user_id fs.
Proof. intros H. by apply store_ok_namespace_ok, reachable_store_ok. Qed.

(** ** Create and list *)

(** POST /logs writes under the user that the verifier named, whatever
    else the request holds. *)
Lemma handle_POST_logs env request user_id log fs :
  get_current_user env request (Some fs) = (Ok user_id, Some fs) →
  LogEntry_init (now env) (body request) = Ok log →
  handle env POST_logs request (Some fs) =
  (Ok (REntry {| entry := log; id := auto_id env |}),
   Some (<[collection_path user_id +:+ "/" +:+ auto_id env := model_dump log]> fs)).
Proof.
  intros Hu Hb. unfold handle, bind, body_LogEntry. rewrite Hu, Hb.
  unfold ret at 1. by rewrite create_log_eq.
Qed.

Lemma LogEntryResponse_init_id now i kw r :
  LogEntryResponse_init now i kw = Ok r → id r = i.
Proof.
  unfold LogEntryResponse_init, result_bind.
  destruct (kw !! "id"); [discriminate|].
  destruct (LogEntry_init now kw); [|discriminate]. by intros [= <-].
Qed.

Lemma logs_of_docs_ids now docs logs :
  logs_of_docs now docs = Ok logs → id <$> logs = docs.*1.
Proof.
  revert logs. induction docs as [|[i d] docs IH]; intros logs H.
  - by injection H as <-.
  - cbn in H. unfold result_bind in H.
    destruct (LogEntryResponse_init now i d) as [r|] eqn:Er; [|discriminate].
    destruct (logs_of_docs now docs) as [l|]; [|discriminate].
    injection H as <-. cbn. f_equal; [|by apply IH].
    by apply LogEntryResponse_init_id in Er.
Qed.

Lemma namespace_ok_insert user_id fs i log :
  is_segment i = true → namespace_ok user_id fs →
  namespace_ok user_id (<[collection_path user_id +:+ "/" +:+ i := model_dump log]> fs).
Proof.
  intros Hi Hok. unfold namespace_ok. rewrite collection_insert by done.
  apply map_Forall_insert_2; [apply is_model_dump_model_dump|done].
Qed.

Lemma get_logs_empty_namespace env user_id fs :
  (∀ i, fs !! doc_path user_id i = None) →
  get_logs env user_id (Some fs) = (Ok [], Some fs).
Proof.
  intros H. rewrite get_logs_eq.
  assert (collection (collection_path user_id) fs = ∅) as Hc.
  { apply map_eq. intros i. rewrite lookup_collection, lookup_empty.
    destruct (is_segment i); [|done].
    by rewrite <- doc_path_collection_path. }
  unfold listing. by rewrite Hc, map_to_list_empty.
Qed.

Lemma logs_sorted_docs user_id fs logs :
  doc_of <$> logs = listing (collection_path user_id) fs →
  StronglySorted (fun r1 r2 => descending "date" (doc_of r1) (doc_of r2)) logs.
Proof.
  intros Hm. pose proof (listing_sorted (collection_path user_id) fs) as Hs.
  rewrite <- Hm in Hs. clear Hm.
  induction logs as [|r logs IH]; [constructor|].
  cbn in Hs. apply StronglySorted_inv in Hs as [Hs Hall].
  constructor; [by apply IH|]. by rewrite Forall_fmap in Hall.
Qed.

(** In a sorted list, an element that precedes no other is the last. *)
Lemma sorted_last {A} `{EqDecision A} (R : relation A) (l : list A) (x : A) :
  StronglySorted R l → x ∈ l →
  (∀ y, y ∈ l → y ≠ x → ¬ R x y) → last l = Some x.
Proof.
  intros Hs Hx Hmin. destruct (last l) as [y|] eqn:El.
  - destruct (decide (y = x)) as [->|Hne]; [done|]. exfalso.
    apply last_Some in El as [l' ->].
    apply (Hmin y); [|done|].
    + apply elem_of_app. right. by apply list_elem_of_singleton.
    + apply elem_of_app in Hx as [Hx|Hx].
      * eapply StronglySorted_app_1_elem_of; [exact Hs|exact Hx|].
        by apply list_elem_of_singleton.
      * apply list_elem_of_singleton in Hx. by subst.
  - apply last_None in El. subst l. by apply elem_of_nil in Hx.
Qed.

(** C1. A document that [create_log] writes for user [A] lies under the
    path made of the fixed application identifier, [A] and the drawn
    identifier; it is no document of the collection of another user [B],
    whose listing is what it was before; every entry of that listing has
    its document in the namespace of [B] as it was before the create. *)
Theorem per_user_isolation env env' log A B fs :
  A ≠ B →
  is_segment (auto_id env) = true →
  let fs' := <[collection_path A +:+ "/" +:+ auto_id env := model_dump log]> fs in
  create_log env log A (Some fs) =
    (Ok {| entry := log; id := auto_id env |}, Some fs')
  ∧ collection (collection_path B) fs' = collection (collection_path B) fs
  ∧ get_logs env' B (Some fs') = ((get_logs env' B (Some fs)).1, Some fs')
  ∧ (∀ logs r, (get_logs env' B (Some fs')).1 = Ok logs → r ∈ logs →
               is_Some (fs !! doc_path B (id r))).
Proof.
  intros Hne Hi fs'.
  assert (collection (collection_path B) fs' = collection (collection_path B) fs)
    as Hc.
  { apply collection_insert_other; [|done].
    intros Heq. by apply collection_path_inj in Heq. }
  assert (listing (collection_path B) fs' = listing (collection_path B) fs)
    as Hl by (unfold listing; by rewrite Hc).
  split; [apply create_log_eq|]. split; [done|]. split.
  - by rewrite !get_logs_eq, Hl.
  - intros logs r Hg Hr. rewrite get_logs_eq, Hl in Hg. cbn [fst] in Hg.
    destruct (logs_of_docs (now env') (listing (collection_path B) fs))
      as [l|] eqn:El; [|discriminate].
    injection Hg as ->. apply logs_of_docs_ids in El.
    apply (list_elem_of_fmap_2 id) in Hr. rewrite El in Hr.
    apply list_elem_of_fmap in Hr as ([i d] & Hid & Hin). cbn in Hid.
    apply elem_of_listing in Hin as (_ & _ & Hin). cbn in Hin.
    rewrite doc_path_collection_path, Hid. by eexists.
Qed.

Lemma per_user_isolation_witness :
  let env := example_env "doc2" in
  "u1" ≠ "u2"
  ∧ is_segment (auto_id env) = true
  ∧ get_logs env "u2" (create_log env example_log_2 "u1" (Some example_store)).2
    = (Ok [], (create_log env example_log_2 "u1" (Some example_store)).2).
Proof.
  cbv zeta. split; [discriminate|]. split; [reflexivity|].
  destruct (per_user_isolation (example_env "doc2") (example_env "doc2")
              example_log_2 "u1" "u2" example_store)
    as (Hc & _ & Hg & _); [discriminate|reflexivity|].
  rewrite Hc. cbn [snd]. rewrite Hg. reflexivity.
Defined.

Lemma earlier_date_not_preceding r created :
  String.ltb (date (entry created)) (date (entry r)) = true →
  ¬ descending "date" (doc_of created) (doc_of r).
Proof.
  intros Hlt. unfold descending, snapshot_leb, doc_of. cbn.
  rewrite !model_dump_date. apply string_ltb_not_leb in Hlt.
  case_bool_decide as E.
  - injection E as E. rewrite E, string_leb_refl in Hlt. discriminate.
  - cbn. by rewrite Hlt.
Qed.

(** The listing of the example, computed: newest first. *)
Example example_listing :
  (get_logs (example_env "doc2") "u1"
     (Some (<[doc_path "u1" "doc0" := model_dump example_log_2]> example_store))).1
  = Ok [ {| entry := example_log; id := "doc1" |};
         {| entry := example_log_2; id := "doc0" |} ].
Proof. reflexivity. Qed.

(** ** The service on the example *)

(** The header is split at the text "Bearer " wherever it stands: what
    follows its first occurrence is the token, also when other text
    precedes it. *)
Example bearer_after_other_text :
  get_current_user (example_env "doc2")
    (example_request (Some "Basic Bearer token-u1")) (Some example_store)
  = (Ok "u1", Some example_store).
Proof. reflexivity. Qed.

(** A header "Bearer " without a token hands the empty token to the
    verifier, whose verdict is the answer. *)
Example bearer_without_token :
  get_current_user (example_env "doc2")
    (example_request (Some "Bearer ")) (Some example_store)
  = (Raise (HTTPException 401
       "Invalid or expired authentication token: Could not verify token signature."),
     Some example_store).
Proof. reflexivity. Qed.

(** Create, list, delete, list: the created entry is the only one listed,
    and nothing is listed once it is deleted. *)
Example create_list_delete_list :
  let env := example_env "doc1" in
  let request := example_request (Some "Bearer token-u1") in
  let created :=
    {| entry :=
         {| taskDescription := "Review"; project := "Docs"; status := "open";
            priority := "low"; startTime := None; endTime := None;
            duration := None; comments := None;
            date := "2024-05-02T10:00:00" |};
       id := "doc1" |} in
  let s0 : Db := Some ∅ in
  let s1 := (handle env POST_logs request s0).2 in
  let s2 := (handle env (DELETE_logs "doc1") request s1).2 in
  (handle env POST_logs request s0).1 = Ok (REntry created)
  ∧ (handle env GET_logs request s1).1 = Ok (REntries [created])
  ∧ (handle env (DELETE_logs "doc1") request s1).1 = Ok RNoContent
  ∧ response_status (DELETE_logs "doc1")
      (handle env (DELETE_logs "doc1") request s1).1 = 204
  ∧ (handle env GET_logs request s2).1 = Ok (REntries [])
  ∧ s2 = s0.
Proof. repeat split. Qed.

(* ===================================================================== *)
(** * Further properties of the code *)
(* ===================================================================== *)

(** ** [split] and [join] *)

Lemma string_app_nil_r (s : string) : s +:+ "" = s.
Proof.
  induction s as [|c s IH]; [reflexivity|].
  by rewrite string_app_cons, IH.
Qed.

Lemma rev_app_app (a b s : string) :
  String.rev_app a b +:+ s = String.rev_app a (b +:+ s).
Proof.
  revert b. induction a as [|c a IH]; intros b; [reflexivity|].
  cbn [String.rev_app]. by rewrite IH, string_app_cons.
Qed.

Lemma rev_cons_app (c : ascii) (cur s : string) :
  String.rev (String c cur) +:+ s = String.rev cur +:+ String c s.
Proof.
  unfold String.rev. cbn [String.rev_app]. rewrite !rev_app_app.
  by rewrite string_app_cons, !string_app_nil_l.
Qed.

(** The characters of a matched separator are dropped. *)
Lemma split_go_skip sep u cur t :
  split_go sep (String.length u) cur (u +:+ t) = split_go sep O cur t.
Proof.
  induction u as [|c u IH]; [reflexivity|].
  rewrite string_app_cons. cbn [String.length]. exact IH.
Qed.

Lemma prefix_app_inv sep s :
  String.prefix sep s = true → ∃ t, s = sep +:+ t.
Proof.
  revert s. induction sep as [|a sep IH]; intros s H.
  - by exists s.
  - destruct s as [|b s]; [discriminate|]. cbn in H.
    destruct (ascii_dec a b) as [->|]; [|discriminate].
    destruct (IH s H) as [t ->]. by exists t.
Qed.

Lemma split_go_cons_match sep c s' cur :
  String.prefix sep (String c s') = true →
  split_go sep O cur (String c s') =
  String.rev cur :: split_go sep (Nat.pred (String.length sep)) "" s'.
Proof.
  intros H.
  change (split_go sep O cur (String c s'))
    with (if String.prefix sep (String c s')
          then String.rev cur :: split_go sep (Nat.pred (String.length sep)) "" s'
          else split_go sep O (String c cur) s').
  by rewrite H.
Qed.

Lemma split_go_cons_no_match sep c s' cur :
  String.prefix sep (String c s') = false →
  split_go sep O cur (String c s') = split_go sep O (String c cur) s'.
Proof.
  intros H.
  change (split_go sep O cur (String c s'))
    with (if String.prefix sep (String c s')
          then String.rev cur :: split_go sep (Nat.pred (String.length sep)) "" s'
          else split_go sep O (String c cur) s').
  by rewrite H.
Qed.

(** A text that starts with the separator: an empty piece, then the pieces
    of the rest. *)
Lemma split_go_separator sep t cur :
  sep ≠ "" →
  split_go sep O cur (sep +:+ t) = String.rev cur :: split_go sep O "" t.
Proof.
  intros Hne. destruct sep as [|a sep]; [done|].
  rewrite string_app_cons.
  rewrite split_go_cons_match.
  - cbn [String.length Nat.pred]. by rewrite split_go_skip.
  - rewrite <- string_app_cons. apply string_prefix_app.
Qed.

Lemma split_go_not_nil sep k cur s : split_go sep k cur s ≠ [].
Proof.
  revert k cur. induction s as [|c s IH]; intros k cur; [done|].
  destruct k as [|k]; [|apply IH].
  destruct (String.prefix sep (String c s)) eqn:E.
  - by rewrite split_go_cons_match.
  - rewrite split_go_cons_no_match by done. apply IH.
Qed.

Lemma join_cons sep x l : l ≠ [] → join sep (x :: l) = x +:+ sep +:+ join sep l.
Proof. by destruct l. Qed.

Lemma join_split_go sep n :
  sep ≠ "" →
  ∀ s cur, (String.length s ≤ n)%nat →
           join sep (split_go sep O cur s) = String.rev cur +:+ s.
Proof.
  intros Hne. induction n as [|n IH]; intros s cur Hlen.
  - destruct s; [|cbn in Hlen; lia]. cbn. by rewrite string_app_nil_r.
  - destruct s as [|c s]; [cbn; by rewrite string_app_nil_r|].
    destruct (String.prefix sep (String c s)) eqn:E.
    + destruct (prefix_app_inv _ _ E) as [t Ht]. rewrite Ht.
      rewrite split_go_separator by done.
      rewrite join_cons by apply split_go_not_nil.
      rewrite IH; [by rewrite string_app_nil_l|].
      apply (f_equal String.length) in Ht. rewrite string_length_app in Ht.
      cbn [String.length] in Ht, Hlen.
      destruct sep; [done|]. cbn [String.length] in Ht. lia.
    + rewrite split_go_cons_no_match by done.
      rewrite IH by (cbn [String.length] in Hlen; lia).
      apply rev_cons_app.
Qed.

(** Joining the pieces of a split with the separator gives the text
    back: [sep.join(s.split(sep)) == s], for a separator that is not
    empty. *)
Theorem join_split s sep : sep ≠ "" → join sep (split s sep) = s.
Proof.
  intros Hne. unfold split.
  rewrite (join_split_go sep (String.length s) Hne s "") by lia.
  apply string_app_nil_l.
Qed.

Lemma join_split_witness :
  "Bearer " ≠ ""
  ∧ join "Bearer " (split "Basic Bearer a Bearer b" "Bearer ")
    = "Basic Bearer a Bearer b".
Proof.
  split; [discriminate|].
  apply (join_split "Basic Bearer a Bearer b" "Bearer "). discriminate.
Defined.

(** The pieces of [sep + t], by those of [t]. *)
Lemma split_separator t sep : sep ≠ "" → split (sep +:+ t) sep = "" :: split t sep.
Proof. intros Hne. unfold split. by rewrite split_go_separator. Qed.

(** ** More on [get_current_user] *)

Lemma get_current_user_empty_header env request fs :
  headers_get request "Authorization" = Some "" →
  get_current_user env request (Some fs) =
  (Raise (HTTPException 401 "Authorization header missing"), Some fs).
Proof.
  intros H. unfold get_current_user, bind, db_is_None, raise. cbn.
  by rewrite H.
Qed.

Lemma list_getitem_Ok {A} (l : list A) i x :
  list_getitem l i = Ok x ↔ l !! i = Some x.
Proof. unfold list_getitem. destruct (l !! i); split; congruence. Qed.

(** X1. A user identifier that [get_current_user] returns is the [uid] of
    the claims that the verifier decoded from the token of the request's
    own Authorization header; the client is initialised, and the database
    is left as it was. *)
Theorem authenticated_user_is_verified env request db user_id db' :
  get_current_user env request db = (Ok user_id, db') →
  db' = db ∧ db ≠ None ∧
  ∃ h token claims,
    headers_get request "Authorization" = Some h ∧ h ≠ "" ∧
    split h "Bearer " !! 1%nat = Some token ∧
    verify_id_token env token = Ok claims ∧
    claims !! "uid" = Some user_id.
Proof.
  intros H. split; [by eapply state_of_failed_dependency|].
  destruct db as [fs|]; [|by rewrite get_current_user_db_None in H].
  split; [done|].
  destruct (headers_get request "Authorization") as [h|] eqn:Eh;
    [|by rewrite get_current_user_missing in H].
  destruct (decide (h = "")) as [->|Hne];
    [by rewrite get_current_user_empty_header in H|].
  rewrite (get_current_user_header _ _ _ _ Eh Hne) in H.
  unfold result_bind in H.
  destruct (list_getitem (split h "Bearer ") 1) as [token|e] eqn:Et;
    [|by destruct e].
  destruct (verify_id_token env token) as [claims|e] eqn:Ev; [|by destruct e].
  unfold dict_getitem in H.
  destruct (claims !! "uid") as [u|] eqn:Eu; [|discriminate].
  injection H as -> _. exists h, token, claims.
  by rewrite <- list_getitem_Ok.
Qed.

Lemma authenticated_user_is_verified_witness :
  let env := example_env "doc2" in
  let request := example_request (Some "Bearer token-u2") in
  get_current_user env request (Some example_store) = (Ok "u2", Some example_store)
  ∧ ∃ h token claims,
      headers_get request "Authorization" = Some h ∧ h ≠ "" ∧
      split h "Bearer " !! 1%nat = Some token ∧
      verify_id_token env token = Ok claims ∧
      claims !! "uid" = Some "u2".
Proof.
  cbv zeta. split; [reflexivity|].
  apply (authenticated_user_is_verified (example_env "doc2")
           (example_request (Some "Bearer token-u2")) (Some example_store)
           "u2" (Some example_store)).
  reflexivity.
Defined.

(** X2. Whatever the request, the verifier and the database,
    [get_current_user] returns a user or raises an [HTTPException] of
    status 401 or 500, no other exception, and leaves the database as it
    was. *)
Theorem get_current_user_outcomes env request db :
  (get_current_user env request db).2 = db
  ∧ match (get_current_user env request db).1 with
    | Ok _ => True
    | Raise (HTTPException sc _) => sc = 401 ∨ sc = 500
    | Raise _ => False
    end.
Proof.
  split; [apply get_current_user_state|].
  destruct db as [fs|]; [|cbn; auto].
  destruct (headers_get request "Authorization") as [h|] eqn:Eh;
    [|rewrite get_current_user_missing by done; cbn; auto].
  destruct (decide (h = "")) as [->|Hne];
    [rewrite get_current_user_empty_header by done; cbn; auto|].
  rewrite (get_current_user_header _ _ _ _ Eh Hne). cbn [fst].
  destruct (result_bind _ _) as [u|e]; [done|].
  destruct e; auto.
Qed.

(** X3. A header made of "Bearer " and a token (a text in which
    "Bearer " does not occur again) hands exactly that token to the
    verifier, and the request is that of the user whose [uid] the decoded
    claims hold. *)
Theorem bearer_header_authenticates env request fs token claims user_id :
  headers_get request "Authorization" = Some ("Bearer " +:+ token) →
  contains "Bearer " token = false →
  verify_id_token env token = Ok claims →
  claims !! "uid" = Some user_id →
  split ("Bearer " +:+ token) "Bearer " = [""; token]
  ∧ get_current_user env request (Some fs) = (Ok user_id, Some fs).
Proof.
  intros Hh Hc Hv Hu.
  assert (split ("Bearer " +:+ token) "Bearer " = [""; token]) as Hs.
  { rewrite split_separator by done. by rewrite split_no_separator. }
  split; [done|].
  rewrite (get_current_user_header _ _ _ _ Hh) by done.
  rewrite Hs. cbn. rewrite Hv. cbn. unfold dict_getitem. by rewrite Hu.
Qed.

Lemma bearer_header_authenticates_witness :
  let env := example_env "doc2" in
  let request := example_request (Some "Bearer token-u1") in
  headers_get request "Authorization" = Some ("Bearer " +:+ "token-u1")
  ∧ contains "Bearer " "token-u1" = false
  ∧ verify_id_token env "token-u1" = Ok {[ "uid" := "u1" ]}
  ∧ get_current_user env request (Some example_store)
    = (Ok "u1", Some example_store).
Proof.
  cbv zeta. split; [reflexivity|]. split; [reflexivity|]. split; [reflexivity|].
  apply (bearer_header_authenticates (example_env "doc2")
           (example_request (Some "Bearer token-u1")) example_store
           "token-u1" {[ "uid" := "u1" ]} "u1"); reflexivity.
Defined.

(** X4. When the verifier raises anything but the three classes of the
    first [except] clause, or decodes claims that lack [uid], the request
    is answered 500 "An error occurred during token verification: ...",
    not 401. *)
Theorem verification_failure_is_500 env request fs h token :
  headers_get request "Authorization" = Some h →
  h ≠ "" →
  split h "Bearer " !! 1%nat = Some token →
  (∀ e, verify_id_token env token = Raise e → is_token_error e = false →
        get_current_user env request (Some fs) =
        (Raise (HTTPException 500
           ("An error occurred during token verification: " +:+ str e)),
         Some fs))
  ∧ (∀ claims, verify_id_token env token = Ok claims → claims !! "uid" = None →
        get_current_user env request (Some fs) =
        (Raise (HTTPException 500
           "An error occurred during token verification: 'uid'"), Some fs)).
Proof.
  intros Hh Hne Ht. apply list_getitem_Ok in Ht.
  rewrite (get_current_user_header _ _ _ _ Hh Hne), Ht. cbn. split.
  - intros e -> He. cbn. by destruct e.
  - intros claims -> Hu. cbn. unfold dict_getitem. by rewrite Hu.
Qed.

Lemma verification_failure_is_500_witness :
  let env :=
    {| verify_id_token := fun token =>
         if String.eqb token "" then Raise (OtherError "Illegal ID token provided")
         else Ok ∅;
       now := "2024-05-02T10:00:00"; auto_id := "doc2" |} in
  let request := example_request (Some "Bearer ") in
  headers_get request "Authorization" = Some "Bearer "
  ∧ "Bearer " ≠ ""
  ∧ split "Bearer " "Bearer " !! 1%nat = Some ""
  ∧ get_current_user env request (Some example_store) =
      (Raise (HTTPException 500
         "An error occurred during token verification: Illegal ID token provided"),
       Some example_store).
Proof.
  intros env request. split; [reflexivity|]. split; [discriminate|].
  split; [reflexivity|].
  destruct (verification_failure_is_500 env request example_store "Bearer " "")
    as [Hraise _]; [reflexivity|discriminate|reflexivity|].
  apply (Hraise (OtherError "Illegal ID token provided")); reflexivity.
Defined.

(** ** More on the models *)

(** X5. An entry survives its dump: building [LogEntry], or
    [LogEntryResponse] with an identifier, from [model_dump] of an entry
    gives that entry back, whatever the clock; two entries with the same
    dump are the same. *)
Theorem model_dump_round_trip now i log log' :
  LogEntry_init now (model_dump log) = Ok log
  ∧ LogEntryResponse_init now i (model_dump log) = Ok {| entry := log; id := i |}
  ∧ (model_dump log = model_dump log' → log = log').
Proof.
  split; [apply LogEntry_init_model_dump|].
  split; [apply LogEntryResponse_init_model_dump|]. apply (inj model_dump).
Qed.

Lemma LogEntry_init_insert_other now kw k v :
  k ∉ LogEntry_fields → LogEntry_init now (<[k := v]> kw) = LogEntry_init now kw.
Proof.
  intros Hk.
  assert (∀ f, f ∈ LogEntry_fields → <[k := v]> kw !! f = kw !! f) as Hl.
  { intros f Hf. apply lookup_insert_ne. by intros ->. }
  unfold LogEntry_init, required_str, optional_str, defaulted_str.
  rewrite !Hl; [done|unfold LogEntry_fields..];
    repeat first [apply list_elem_of_here | apply list_elem_of_further].
Qed.

Lemma required_str_Ok kw f s :
  required_str kw f = Ok s → kw !! f = Some (VStr s).
Proof.
  unfold required_str. by destruct (kw !! f) as [[]|]; intros [= ->].
Qed.

Lemma LogEntry_init_required now kw log f :
  LogEntry_init now kw = Ok log →
  f ∈ ["taskDescription"; "project"; "status"; "priority"] →
  ∃ s, kw !! f = Some (VStr s).
Proof.
  unfold LogEntry_init, result_bind. intros H Hf.
  destruct (required_str kw "taskDescription") eqn:E1; [|discriminate].
  destruct (required_str kw "project") eqn:E2; [|discriminate].
  destruct (required_str kw "status") eqn:E3; [|discriminate].
  destruct (required_str kw "priority") eqn:E4; [|discriminate].
  apply required_str_Ok in E1, E2, E3, E4.
  repeat (apply elem_of_cons in Hf as [->|Hf]); eauto.
  by apply elem_of_nil in Hf.
Qed.

(** ** What a request does to the database *)

Lemma doc_path_inj user_id i j : doc_path user_id i = doc_path user_id j → i = j.
Proof.
  rewrite !doc_path_collection_path. intros H.
  by apply (inj (String.app _)), (inj (String.app _)) in H.
Qed.

(** The four things a request can do to the database: nothing, or, for
    the user [u] of the request, write a new document of [u], rewrite an
    existing document of [u], delete an existing document of [u]. *)
Lemma handle_effect env ep request fs :
  ∃ fs', (handle env ep request (Some fs)).2 = Some fs' ∧
    (fs' = fs ∨
     ∃ u, (get_current_user env request (Some fs)).1 = Ok u ∧
       ((ep = POST_logs ∧ ∃ log,
           fs' = <[collection_path u +:+ "/" +:+ auto_id env := model_dump log]> fs)
        ∨ (∃ i log old, ep = PUT_logs i ∧ fs !! doc_path u i = Some old ∧
             fs' = <[doc_path u i := model_dump log ∪ old]> fs)
        ∨ (∃ i old, ep = DELETE_logs i ∧ fs !! doc_path u i = Some old ∧
             fs' = delete (doc_path u i) fs))).
Proof.
  destruct ep as [| | |log_id|log_id]; unfold handle, bind.
  - exists fs. by split; [|left].
  - destruct (get_current_user env request (Some fs)) as [[u|e] db'] eqn:E;
      pose proof (state_of_failed_dependency _ _ _ _ _ E) as ->;
      [|exists fs; by split; [|left]].
    unfold body_LogEntry.
    destruct (LogEntry_init (now env) (body request)) as [log|e];
      [|exists fs; by split; [|left]].
    unfold ret at 1. rewrite create_log_eq. eexists. split; [reflexivity|].
    right. exists u. split; [done|]. left. split; [done|]. by exists log.
  - destruct (get_current_user env request (Some fs)) as [[u|e] db'] eqn:E;
      pose proof (state_of_failed_dependency _ _ _ _ _ E) as ->;
      [|exists fs; by split; [|left]].
    rewrite get_logs_eq. exists fs. split; [|by left].
    by destruct (logs_of_docs _ _).
  - destruct (get_current_user env request (Some fs)) as [[u|e] db'] eqn:E;
      pose proof (state_of_failed_dependency _ _ _ _ _ E) as ->;
      [|exists fs; by split; [|left]].
    unfold body_LogEntry.
    destruct (LogEntry_init (now env) (body request)) as [log|e];
      [|exists fs; by split; [|left]].
    unfold ret at 1.
    destruct (fs !! doc_path u log_id) as [old|] eqn:El.
    + rewrite (update_log_existing _ _ _ _ _ _ El).
      eexists. split; [by destruct (LogEntryResponse_init _ _ _)|].
      right. exists u. split; [done|]. right. left. by exists log_id, log, old.
    + rewrite (update_log_missing _ _ _ _ _ El). exists fs. by split; [|left].
  - destruct (get_current_user env request (Some fs)) as [[u|e] db'] eqn:E;
      pose proof (state_of_failed_dependency _ _ _ _ _ E) as ->;
      [|exists fs; by split; [|left]].
    destruct (fs !! doc_path u log_id) as [old|] eqn:El.
    + rewrite (delete_log_existing _ _ _ _ _ El).
      eexists. split; [reflexivity|].
      right. exists u. split; [done|]. right. right. by exists log_id, old.
    + rewrite (delete_log_missing _ _ _ _ El). exists fs. by split; [|left].
Qed.

Lemma collection_delete_other cp cp' fs i :
  cp ≠ cp' → is_segment i = true →
  collection cp' (delete (cp +:+ "/" +:+ i) fs) = collection cp' fs.
Proof.
  intros Hne Hi. apply map_eq. intros j. rewrite !lookup_collection.
  destruct (is_segment j) eqn:Hj; [|done].
  rewrite lookup_delete_ne; [done|].
  intros Heq. apply path_split_unique in Heq as [? ?];
    auto using is_segment_no_slash.
Qed.

Lemma get_logs_of_collection env user_id fs fs' :
  collection (collection_path user_id) fs' = collection (collection_path user_id) fs →
  (get_logs env user_id (Some fs')).1 = (get_logs env user_id (Some fs)).1.
Proof. intros H. rewrite !get_logs_eq. unfold listing. by rewrite H. Qed.

(** X8. No request changes the namespace of a user other than its own:
    whatever the endpoint, the body and the outcome, the documents and the
    listing of every user [B] that is not the verified user of the request
    stay as they were. The identifier drawn for a new document and the
    identifier in the path are single path segments. *)
Theorem no_request_touches_another_namespace env ep request fs B :
  is_segment (auto_id env) = true →
  match ep with
  | PUT_logs i | DELETE_logs i => is_segment i = true
  | _ => True
  end →
  (get_current_user env request (Some fs)).1 ≠ Ok B →
  ∃ fs',
    (handle env ep request (Some fs)).2 = Some fs'
    ∧ collection (collection_path B) fs' = collection (collection_path B) fs
    ∧ ∀ env', (get_logs env' B (Some fs')).1 = (get_logs env' B (Some fs)).1.
Proof.
  intros Hauto Hep HB.
  destruct (handle_effect env ep request fs) as (fs' & Hs & Heff).
  exists fs'. split; [done|].
  assert (collection (collection_path B) fs' = collection (collection_path B) fs)
    as Hc.
  { destruct Heff as [->|(u & Hu & Heff)]; [done|].
    assert (collection_path u ≠ collection_path B) as Hne.
    { intros Heq%collection_path_inj. subst u. by apply HB. }
    destruct Heff as [(-> & log & ->)|[(i & log & old & -> & _ & ->)
                                      |(i & old & -> & _ & ->)]].
    - by apply collection_insert_other.
    - rewrite doc_path_collection_path. by apply collection_insert_other.
    - rewrite doc_path_collection_path. by apply collection_delete_other. }
  split; [done|]. intros env'. by apply get_logs_of_collection.
Qed.

Lemma no_request_touches_another_namespace_witness :
  let env := example_env "doc2" in
  let request := example_request (Some "Bearer token-u2") in
  is_segment (auto_id env) = true
  ∧ is_segment "doc1" = true
  ∧ (get_current_user env request (Some example_store)).1 ≠ Ok "u1"
  ∧ ∃ fs',
      (handle env (DELETE_logs "doc1") request (Some example_store)).2 = Some fs'
      ∧ collection (collection_path "u1") fs'
        = collection (collection_path "u1") example_store.
Proof.
  intros env request.
  assert ((get_current_user env request (Some example_store)).1 ≠ Ok "u1")
    as Hother by (intros H; vm_compute in H; discriminate H).
  split; [reflexivity|]. split; [reflexivity|]. split; [exact Hother|].
  destruct (no_request_touches_another_namespace env (DELETE_logs "doc1")
              request example_store "u1" eq_refl eq_refl Hother)
    as (fs' & Hs & Hc & _).
  exists fs'. split; [exact Hs|exact Hc].
Defined.

(** X9. Every document of a database that the service has reached lies
    under [artifacts/default-app-id/users/<uid>/progress-logs/]: the
    service writes nowhere else. *)
Theorem reachable_paths fs p d :
  reachable fs → fs !! p = Some d →
  ∃ user_id i, p = doc_path user_id i.
Proof.
  intros Hr. revert p d.
  induction Hr as [|env ep request fs fs' _ IH Hstep]; intros p d Hp.
  - by rewrite lookup_empty in Hp.
  - destruct (handle_effect env ep request fs) as (fs'' & Hs & Heff).
    rewrite Hs in Hstep. injection Hstep as ->.
    destruct Heff as [->|(u & _ & Heff)]; [by eapply IH|].
    destruct Heff as [(-> & log & ->)|[(i & log & old & -> & _ & ->)
                                      |(i & old & -> & _ & ->)]].
    + destruct (decide (collection_path u +:+ "/" +:+ auto_id env = p))
        as [<-|Hne].
      * exists u, (auto_id env). by rewrite doc_path_collection_path.
      * rewrite lookup_insert_ne in Hp by done. by eapply IH.
    + destruct (decide (doc_path u i = p)) as [<-|Hne]; [by exists u, i|].
      rewrite lookup_insert_ne in Hp by done. by eapply IH.
    + destruct (decide (doc_path u i = p)) as [<-|Hne].
      * by rewrite lookup_delete_eq in Hp.
      * rewrite lookup_delete_ne in Hp by done. by eapply IH.
Qed.

Lemma example_store_reachable : reachable example_store.
Proof.
  apply (reachable_step (example_env "doc1") POST_logs
           {| headers := {[ "authorization" := "Bearer token-u1" ]};
              body := model_dump example_log |} ∅ example_store).
  - apply reachable_empty.
  - reflexivity.
Qed.

Lemma reachable_paths_witness :
  reachable example_store
  ∧ example_store !! doc_path "u1" "doc1" = Some (model_dump example_log)
  ∧ ∃ user_id i, doc_path "u1" "doc1" = doc_path user_id i.
Proof.
  split; [apply example_store_reachable|]. split; [reflexivity|].
  apply (reachable_paths example_store (doc_path "u1" "doc1")
           (model_dump example_log)).
  - apply example_store_reachable.
  - reflexivity.
Defined.

(** ** The answers of the service *)

Lemma get_current_user_raise_inv env request db e :
  (get_current_user env request db).1 = Raise e →
  ∃ sc d, e = HTTPException sc d ∧ (sc = 401 ∨ sc = 500).
Proof.
  destruct db as [fs|]; [|intros [= <-]; eauto].
  destruct (headers_get request "Authorization") as [h|] eqn:Eh;
    [|rewrite get_current_user_missing by done; intros [= <-]; eauto].
  destruct (decide (h = "")) as [->|Hne];
    [rewrite get_current_user_empty_header by done; intros [= <-]; eauto|].
  rewrite (get_current_user_header _ _ _ _ Eh Hne). cbn [fst].
  destruct (result_bind _ _) as [u|e']; [done|].
  destruct e'; intros [= <-]; eauto.
Qed.

(** A handler body under [except Exception], raising 500 with a fixed
    text and [str(e)]: nothing but that 500 leaves it. *)
Lemma try_except_500 {A} (body : M A) (text : string) db e :
  (try_except body (fun e => raise (HTTPException 500 (text +:+ str e))) db).1
    = Raise e →
  ∃ d, e = HTTPException 500 d.
Proof.
  unfold try_except, raise. destruct (body db) as [[a|e'] db']; cbn; [done|].
  intros [= <-]. eauto.
Qed.

Lemma handler_status {A} (m : M A) db ep :
  (∀ e, (m db).1 = Raise e → ∃ d, e = HTTPException 500 d) →
  response_status ep (m db).1 = success_status ep
  ∨ response_status ep (m db).1 = 500.
Proof.
  intros H. destruct (m db) as [[a|e] db']; cbn in *; [by left|].
  destruct (H e eq_refl) as [d ->]. by right.
Qed.

(** X10. Whatever fails inside one of the four handlers, its own 404
    included, leaves the handler as an [HTTPException] of status 500. *)
Theorem handlers_raise_only_500 env log_id log user_id db e :
  (create_log env log user_id db).1 = Raise e
  ∨ (get_logs env user_id db).1 = Raise e
  ∨ (update_log env log_id log user_id db).1 = Raise e
  ∨ (delete_log env log_id user_id db).1 = Raise e →
  ∃ d, e = HTTPException 500 d.
Proof.
  intros [H|[H|[H|H]]]; eapply try_except_500; exact H.
Qed.

Lemma handlers_raise_only_500_witness :
  (update_log (example_env "doc2") "nope" example_log_2 "u1"
     (Some example_store)).1
  = Raise (HTTPException 500 "Failed to update log: 404: Log not found")
  ∧ ∃ d, HTTPException 500 "Failed to update log: 404: Log not found"
         = HTTPException 500 d.
Proof.
  split; [reflexivity|].
  apply (handlers_raise_only_500 (example_env "doc2") "nope" example_log_2 "u1"
           (Some example_store)).
  right. right. left. reflexivity.
Defined.

Lemma handle_status_cases env ep request db :
  (∃ r, (handle env ep request db).1 = Ok r)
  ∨ (∃ sc d, (handle env ep request db).1 = Raise (HTTPException sc d)
             ∧ (sc = 401 ∨ sc = 500))
  ∨ (∃ msg, (handle env ep request db).1 = Raise (RequestValidationError msg)).
Proof.
  destruct ep as [| | |log_id|log_id]; unfold handle, bind;
    try (left; by eexists).
  all: destruct (get_current_user env request db) as [[u|e] db'] eqn:E;
    [|right; left;
      destruct (get_current_user_raise_inv env request db e) as (sc & d & -> & Hsc);
      [by rewrite E|by exists sc, d]].
  - unfold body_LogEntry.
    destruct (LogEntry_init (now env) (body request)) as [log|e];
      [|right; right; by eexists].
    unfold ret; cbv beta iota.
    destruct (create_log env log u db') as [[r|e] db''] eqn:Ec;
      [left; by eexists|].
    right. left. destruct (try_except_500 _ _ db' e (f_equal fst Ec)) as [d ->].
    exists 500, d. auto.
  - unfold ret. destruct (get_logs env u db') as [[r|e] db''] eqn:Ec;
      [left; by eexists|].
    right. left. destruct (try_except_500 _ _ db' e (f_equal fst Ec)) as [d ->].
    exists 500, d. auto.
  - unfold body_LogEntry.
    destruct (LogEntry_init (now env) (body request)) as [log|e];
      [|right; right; by eexists].
    unfold ret; cbv beta iota.
    destruct (update_log env log_id log u db') as [[r|e] db''] eqn:Ec;
      [left; by eexists|].
    right. left. destruct (try_except_500 _ _ db' e (f_equal fst Ec)) as [d ->].
    exists 500, d. auto.
  - unfold ret. destruct (delete_log env log_id u db') as [[r|e] db''] eqn:Ec;
      [left; by eexists|].
    right. left. destruct (try_except_500 _ _ db' e (f_equal fst Ec)) as [d ->].
    exists 500, d. auto.
Qed.

(** ** Listings before and after a write *)

Lemma NoDup_fmap_elem_inj {A B} (f : A → B) (l : list A) x y :
  NoDup (f <$> l) → x ∈ l → y ∈ l → f x = f y → x = y.
Proof.
  induction l as [|a l IH]; intros Hn Hx Hy Hf; [by apply elem_of_nil in Hx|].
  rewrite fmap_cons in Hn. apply NoDup_cons in Hn as [Ha Hn].
  apply elem_of_cons in Hx as [->|Hx]; apply elem_of_cons in Hy as [->|Hy].
  - done.
  - destruct Ha. rewrite Hf. by apply list_elem_of_fmap_2.
  - destruct Ha. rewrite <- Hf. by apply list_elem_of_fmap_2.
  - by apply IH.
Qed.

Lemma StronglySorted_filter {A} (R : relation A) (P : A → Prop)
    `{∀ x, Decision (P x)} (l : list A) :
  StronglySorted R l → StronglySorted R (filter P l).
Proof.
  induction 1 as [|x l Hs IH Hall]; [constructor|].
  rewrite filter_cons. destruct (decide (P x)); [|done].
  constructor; [done|]. apply Forall_forall. intros y Hy.
  apply list_elem_of_filter in Hy as [_ Hy].
  by eapply Forall_forall in Hall.
Qed.

Lemma filter_all {A} (P : A → Prop) `{∀ x, Decision (P x)} (l : list A) :
  (∀ x, x ∈ l → P x) → filter P l = l.
Proof.
  induction l as [|a l IH]; intros Hall; [done|].
  rewrite filter_cons_True by (apply Hall; apply list_elem_of_here).
  f_equal. apply IH. intros x Hx. apply Hall. by apply list_elem_of_further.
Qed.

(** Two entries that precede each other have the same identifier. *)
Lemma descending_both_ways r1 r2 :
  descending "date" (doc_of r1) (doc_of r2) →
  descending "date" (doc_of r2) (doc_of r1) →
  id r1 = id r2.
Proof.
  unfold descending, snapshot_leb, doc_of. cbn. rewrite !model_dump_date.
  repeat case_bool_decide; simplify_eq; cbn.
  - intros ? ?. by apply String.leb_antisym.
  - intros H1 H2. exfalso.
    match goal with Hne : VStr _ ≠ VStr _ |- _ => apply Hne end.
    f_equal. by apply String.leb_antisym.
Qed.

(** Entries with distinct identifiers have one sorted arrangement. *)
Lemma sorted_logs_unique (L l k : list LogEntryResponse) :
  NoDup (id <$> L) → (∀ r, r ∈ l → r ∈ L) →
  StronglySorted (fun r1 r2 => descending "date" (doc_of r1) (doc_of r2)) l →
  StronglySorted (fun r1 r2 => descending "date" (doc_of r1) (doc_of r2)) k →
  l ≡ₚ k → l = k.
Proof.
  intros Hn Hsub Hl Hk Hp.
  apply (StronglySorted_unique_strong
           (fun r1 r2 => descending "date" (doc_of r1) (doc_of r2))); try done.
  intros x1 x2 H1 H2 R12 R21. rewrite <- Hp in H2.
  apply (NoDup_fmap_elem_inj id L); auto using descending_both_ways.
Qed.

Lemma logs_NoDup user_id fs logs :
  doc_of <$> logs = listing (collection_path user_id) fs → NoDup logs.
Proof. intros Hm. eapply NoDup_fmap_1, logs_NoDup_id, Hm. Qed.

Lemma get_logs_Ok_inv env user_id fs logs :
  namespace_ok user_id fs →
  get_logs env user_id (Some fs) = (Ok logs, Some fs) →
  doc_of <$> logs = listing (collection_path user_id) fs.
Proof.
  intros Hok Hg. destruct (get_logs_spec env user_id fs Hok) as (l & Hl & Hm).
  rewrite Hl in Hg. by injection Hg as <-.
Qed.

Lemma namespace_ok_delete user_id fs p :
  namespace_ok user_id fs → namespace_ok user_id (delete p fs).
Proof.
  intros Hok i d Hl. apply (Hok i d). rewrite lookup_collection in *.
  destruct (is_segment i); [|done]. by apply lookup_delete_Some in Hl as [_ ?].
Qed.

(** X12. After a DELETE that succeeded, the listing of the user is the
    previous one without the entry of that identifier, the others in their
    order. *)
Theorem delete_then_list env env' log_id user_id fs logs old :
  namespace_ok user_id fs →
  fs !! doc_path user_id log_id = Some old →
  get_logs env' user_id (Some fs) = (Ok logs, Some fs) →
  let fs' := delete (doc_path user_id log_id) fs in
  delete_log env log_id user_id (Some fs) = (Ok tt, Some fs')
  ∧ get_logs env' user_id (Some fs')
    = (Ok (filter (fun r => id r ≠ log_id) logs), Some fs').
Proof.
  intros Hok Hold Hg fs'. split; [exact (delete_log_existing _ _ _ _ _ Hold)|].
  pose proof (get_logs_Ok_inv _ _ _ _ Hok Hg) as Hm.
  pose proof (namespace_ok_delete user_id fs (doc_path user_id log_id) Hok)
    as Hok'.
  destruct (get_logs_spec env' user_id _ Hok') as (logs' & Hg' & Hm').
  transitivity (Ok logs', Some fs'); [exact Hg'|].
  assert (logs' = filter (fun r => id r ≠ log_id) logs) as ->; [|reflexivity].
  apply (sorted_logs_unique logs').
  - exact (logs_NoDup_id _ _ _ Hm').
  - done.
  - exact (logs_sorted_docs _ _ _ Hm').
  - apply StronglySorted_filter. exact (logs_sorted_docs _ _ _ Hm).
  - apply NoDup_Permutation.
    + exact (logs_NoDup _ _ _ Hm').
    + apply NoDup_filter. exact (logs_NoDup _ _ _ Hm).
    + intros r. rewrite list_elem_of_filter.
      rewrite (elem_of_logs _ _ _ r Hm'), (elem_of_logs _ _ _ r Hm).
      rewrite lookup_delete_Some. split.
      * intros (Hs & Hne & Hl). split; [|done]. intros Heq. apply Hne.
        by rewrite Heq.
      * intros (Hne & Hs & Hl). split; [done|]. split; [|done].
        intros Heq%doc_path_inj. by apply Hne.
Qed.

Lemma delete_then_list_witness :
  let env := example_env "doc2" in
  let fs := <[doc_path "u1" "doc0" := model_dump example_log_2]> example_store in
  let logs := [ {| entry := example_log; id := "doc1" |};
                {| entry := example_log_2; id := "doc0" |} ] in
  namespace_ok "u1" fs
  ∧ fs !! doc_path "u1" "doc1" = Some (model_dump example_log)
  ∧ get_logs env "u1" (Some fs) = (Ok logs, Some fs)
  ∧ get_logs env "u1" (Some (delete (doc_path "u1" "doc1") fs))
    = (Ok (filter (fun r => id r ≠ "doc1") logs),
       Some (delete (doc_path "u1" "doc1") fs)).
Proof.
  intros env fs logs. split; [compute_done|]. split; [reflexivity|].
  split; [reflexivity|].
  apply (delete_then_list env env "doc1" "u1" fs logs (model_dump example_log));
    [compute_done|reflexivity|reflexivity].
Defined.

Lemma namespace_ok_put user_id fs i log :
  is_segment i = true → namespace_ok user_id fs →
  namespace_ok user_id (<[doc_path user_id i := model_dump log]> fs).
Proof.
  intros Hi Hok. rewrite doc_path_collection_path.
  by apply namespace_ok_insert.
Qed.

(** The listing after the document [i] of the user was written: the
    written entry, somewhere among the other entries in their order. *)
Lemma logs_after_put user_id fs i log logs logs' :
  is_segment i = true →
  doc_of <$> logs = listing (collection_path user_id) fs →
  doc_of <$> logs' =
    listing (collection_path user_id)
            (<[doc_path user_id i := model_dump log]> fs) →
  ∃ l1 l2,
    logs' = (l1 ++ {| entry := log; id := i |} :: l2)%list
    ∧ filter (fun r => id r ≠ i) logs = (l1 ++ l2)%list.
Proof.
  intros Hi Hm Hm'. set (new := {| entry := log; id := i |}).
  assert (new ∈ logs') as Hin.
  { apply (elem_of_logs _ _ _ _ Hm'). cbn. split; [done|].
    apply lookup_insert_eq. }
  apply list_elem_of_split in Hin as (l1 & l2 & Hsplit).
  exists l1, l2. split; [done|].
  pose proof (logs_NoDup_id _ _ _ Hm') as Hn.
  rewrite Hsplit, fmap_app, fmap_cons in Hn.
  apply NoDup_app in Hn as (_ & Hn12 & Hn2).
  apply NoDup_cons in Hn2 as [Hn2 _].
  assert (∀ r, r ∈ l1 → id r ≠ i) as H1.
  { intros r Hr Heq. apply (Hn12 (id r)); [by apply list_elem_of_fmap_2|].
    rewrite Heq. apply list_elem_of_here. }
  assert (∀ r, r ∈ l2 → id r ≠ i) as H2.
  { intros r Hr Heq. apply Hn2. change (id new) with i. rewrite <- Heq.
    by apply list_elem_of_fmap_2. }
  assert (filter (fun r => id r ≠ i) logs' = (l1 ++ l2)%list) as Hf.
  { rewrite Hsplit, filter_app, filter_cons_False by (cbn; auto).
    by rewrite !filter_all. }
  rewrite <- Hf. apply (sorted_logs_unique logs).
  - exact (logs_NoDup_id _ _ _ Hm).
  - intros r Hr. by apply list_elem_of_filter in Hr as [_ ?].
  - apply StronglySorted_filter. exact (logs_sorted_docs _ _ _ Hm).
  - apply StronglySorted_filter. exact (logs_sorted_docs _ _ _ Hm').
  - apply NoDup_Permutation.
    + apply NoDup_filter. exact (logs_NoDup _ _ _ Hm).
    + apply NoDup_filter. exact (logs_NoDup _ _ _ Hm').
    + intros r. rewrite !list_elem_of_filter.
      rewrite (elem_of_logs _ _ _ r Hm'), (elem_of_logs _ _ _ r Hm).
      split; intros (Hne & Hs & Hl); (split; [done|]; split; [done|]).
      * rewrite lookup_insert_ne; [done|]. intros Heq%doc_path_inj. by apply Hne.
      * rewrite lookup_insert_ne in Hl; [done|].
        intros Heq%doc_path_inj. by apply Hne.
Qed.

(** X13. Creating an entry under an identifier that the namespace does not
    hold yet puts it into the listing and leaves every other entry where it
    was relative to the others: the next listing is the previous one with
    the created entry inserted. *)
Theorem create_keeps_other_entries env env' log user_id fs logs :
  namespace_ok user_id fs →
  is_segment (auto_id env) = true →
  fs !! doc_path user_id (auto_id env) = None →
  get_logs env' user_id (Some fs) = (Ok logs, Some fs) →
  ∃ l1 l2,
    logs = (l1 ++ l2)%list
    ∧ get_logs env' user_id (create_log env log user_id (Some fs)).2
      = (Ok (l1 ++ {| entry := log; id := auto_id env |} :: l2)%list,
         (create_log env log user_id (Some fs)).2).
Proof.
  intros Hok Hi Hfresh Hg. rewrite create_log_eq. cbn [snd].
  rewrite <- doc_path_collection_path.
  pose proof (get_logs_Ok_inv _ _ _ _ Hok Hg) as Hm.
  pose proof (namespace_ok_put user_id fs _ log Hi Hok) as Hok'.
  destruct (get_logs_spec env' user_id _ Hok') as (logs' & Hg' & Hm').
  destruct (logs_after_put _ _ _ _ _ _ Hi Hm Hm') as (l1 & l2 & Hl & Hf).
  exists l1, l2. split.
  - rewrite <- Hf. symmetry. apply filter_all. intros r Hr Heq.
    apply (elem_of_logs _ _ _ _ Hm) in Hr as [_ Hr].
    rewrite Heq, Hfresh in Hr. discriminate.
  - by rewrite Hg', Hl.
Qed.

Lemma create_keeps_other_entries_witness :
  let env := example_env "doc0" in
  let logs := [ {| entry := example_log; id := "doc1" |} ] in
  namespace_ok "u1" example_store
  ∧ is_segment (auto_id env) = true
  ∧ example_store !! doc_path "u1" (auto_id env) = None
  ∧ get_logs env "u1" (Some example_store) = (Ok logs, Some example_store)
  ∧ ∃ l1 l2,
      logs = (l1 ++ l2)%list
      ∧ (get_logs env "u1"
           (create_log env example_log_2 "u1" (Some example_store)).2).1
        = Ok (l1 ++ {| entry := example_log_2; id := "doc0" |} :: l2)%list.
Proof.
  intros env logs. split; [compute_done|]. split; [reflexivity|].
  split; [reflexivity|]. split; [reflexivity|].
  destruct (create_keeps_other_entries env env example_log_2 "u1"
              example_store logs) as (l1 & l2 & Hl & Hg);
    [compute_done|reflexivity|reflexivity|reflexivity|].
  exists l1, l2. split; [exact Hl|]. exact (f_equal fst Hg).
Defined.

(** X14. Updating a document of the namespace puts the submitted entry
    into the listing under the same identifier, at the place of its new
    [date], and leaves every other entry where it was relative to the
    others. *)
Theorem update_then_list env env' log_id log user_id fs logs old :
  namespace_ok user_id fs →
  is_segment log_id = true →
  fs !! doc_path user_id log_id = Some old →
  get_logs env' user_id (Some fs) = (Ok logs, Some fs) →
  ∃ l1 l2,
    filter (fun r => id r ≠ log_id) logs = (l1 ++ l2)%list
    ∧ get_logs env' user_id (update_log env log_id log user_id (Some fs)).2
      = (Ok (l1 ++ {| entry := log; id := log_id |} :: l2)%list,
         (update_log env log_id log user_id (Some fs)).2).
Proof.
  intros Hok Hi Hold Hg.
  assert (∃ prev, old = model_dump prev) as [prev ->].
  { apply is_model_dump_spec, (Hok log_id).
    by rewrite lookup_collection, Hi, <- doc_path_collection_path. }
  rewrite (update_log_model_dump _ _ _ _ _ _ Hold). cbn [snd].
  pose proof (get_logs_Ok_inv _ _ _ _ Hok Hg) as Hm.
  pose proof (namespace_ok_put user_id fs _ log Hi Hok) as Hok'.
  destruct (get_logs_spec env' user_id _ Hok') as (logs' & Hg' & Hm').
  destruct (logs_after_put _ _ _ _ _ _ Hi Hm Hm') as (l1 & l2 & Hl & Hf).
  exists l1, l2. split; [done|]. by rewrite Hg', Hl.
Qed.

Lemma update_then_list_witness :
  let env := example_env "doc2" in
  let fs := <[doc_path "u1" "doc0" := model_dump example_log_2]> example_store in
  let logs := [ {| entry := example_log; id := "doc1" |};
                {| entry := example_log_2; id := "doc0" |} ] in
  namespace_ok "u1" fs
  ∧ is_segment "doc1" = true
  ∧ fs !! doc_path "u1" "doc1" = Some (model_dump example_log)
  ∧ get_logs env "u1" (Some fs) = (Ok logs, Some fs)
  ∧ ∃ l1 l2,
      filter (fun r => id r ≠ "doc1") logs = (l1 ++ l2)%list
      ∧ (get_logs env "u1"
           (update_log env "doc1" example_log_2 "u1" (Some fs)).2).1
        = Ok (l1 ++ {| entry := example_log_2; id := "doc1" |} :: l2)%list.
Proof.
  intros env fs logs. split; [compute_done|]. split; [reflexivity|].
  split; [reflexivity|]. split; [reflexivity|].
  destruct (update_then_list env env "doc1" example_log_2 "u1" fs logs
              (model_dump example_log)) as (l1 & l2 & Hl & Hg);
    [compute_done|reflexivity|reflexivity|reflexivity|].
  exists l1, l2. split; [exact Hl|]. exact (f_equal fst Hg).
Defined.

(** ** Documents that this API did not write *)

Lemma elem_of_dom_model_dump log f :
  f ∈ dom (model_dump log) ↔ f ∈ LogEntry_fields.
Proof.
  rewrite dom_model_dump. unfold LogEntry_fields.
  rewrite !elem_of_union, !elem_of_singleton, !elem_of_cons, elem_of_nil.
  tauto.
Qed.

(** X16. PUT /logs/{id} writes with Firestore's [update]: every field of
    [LogEntry] takes the submitted value, and a field of the stored
    document that [LogEntry] does not have stays as it was. *)
Theorem update_keeps_foreign_fields env log_id log user_id fs old :
  fs !! doc_path user_id log_id = Some old →
  ∃ stored,
    (update_log env log_id log user_id (Some fs)).2
    = Some (<[doc_path user_id log_id := stored]> fs)
    ∧ (∀ f, f ∈ LogEntry_fields → stored !! f = model_dump log !! f)
    ∧ (∀ f, f ∉ LogEntry_fields → stored !! f = old !! f).
Proof.
  intros Hold. exists (model_dump log ∪ old).
  rewrite (update_log_existing _ _ _ _ _ _ Hold). split; [done|]. split.
  - intros f Hf. apply elem_of_dom_model_dump with (log := log) in Hf.
    apply elem_of_dom in Hf as [v Hv]. rewrite Hv.
    by apply lookup_union_Some_l.
  - intros f Hf. apply lookup_union_r, not_elem_of_dom.
    by rewrite elem_of_dom_model_dump.
Qed.

Lemma update_keeps_foreign_fields_witness :
  let env := example_env "doc2" in
  let fs : gmap string dict := <[doc_path "u1" "doc1" := foreign_document]> ∅ in
  fs !! doc_path "u1" "doc1" = Some foreign_document
  ∧ ∃ stored,
      (update_log env "doc1" example_log_2 "u1" (Some fs)).2
      = Some (<[doc_path "u1" "doc1" := stored]> fs)
      ∧ stored !! "owner" = Some (VStr "mobile-app")
      ∧ stored !! "comments" = Some VNone.
Proof.
  intros env fs. split; [reflexivity|].
  destruct (update_keeps_foreign_fields env "doc1" example_log_2 "u1" fs
              foreign_document eq_refl) as (stored & Hs & Hin & Hout).
  exists stored. split; [exact Hs|]. split.
  - rewrite Hout; [reflexivity|compute_done].
  - rewrite Hin; [reflexivity|compute_done].
Defined.

Lemma logs_of_docs_Raise now docs x e :
  x ∈ docs → LogEntryResponse_init now x.1 x.2 = Raise e →
  ∃ e', logs_of_docs now docs = Raise e'.
Proof.
  induction docs as [|y docs IH]; intros Hx He; [by apply elem_of_nil in Hx|].
  cbn. unfold result_bind.
  destruct (LogEntryResponse_init now y.1 y.2) as [r|e1] eqn:Ey; [|by eexists].
  apply elem_of_cons in Hx as [->|Hx]; [congruence|].
  destruct (IH Hx He) as [e' ->]. by eexists.
Qed.

(** X17. One document of the namespace that has a [date] and that the
    response model refuses (a required field is missing, or Python refuses
    the call because the document has a field [id]) makes the whole
    GET /logs fail with 500 "Failed to retrieve logs: ...": no part of the
    listing is returned. *)
Theorem refused_document_fails_listing env user_id fs i d e :
  is_segment i = true →
  fs !! doc_path user_id i = Some d →
  is_Some (d !! "date") →
  LogEntryResponse_init (now env) i d = Raise e →
  ∃ msg,
    get_logs env user_id (Some fs)
    = (Raise (HTTPException 500 ("Failed to retrieve logs: " +:+ msg)), Some fs).
Proof.
  intros Hi Hd Hdate He. rewrite get_logs_eq.
  assert ((i, d) ∈ listing (collection_path user_id) fs) as Hin.
  { apply elem_of_listing. cbn. by rewrite <- doc_path_collection_path. }
  destruct (logs_of_docs_Raise (now env) _ (i, d) e Hin He) as [e' ->].
  by exists (str e').
Qed.

Lemma refused_document_fails_listing_witness :
  let env := example_env "doc2" in
  let d : dict := <["id" := VStr "doc9"]> (model_dump example_log_2) in
  let fs := <[doc_path "u1" "doc9" := d]> example_store in
  is_segment "doc9" = true
  ∧ fs !! doc_path "u1" "doc9" = Some d
  ∧ is_Some (d !! "date")
  ∧ LogEntryResponse_init (now env) "doc9" d
    = Raise (TypeError "got multiple values for keyword argument 'id'")
  ∧ ∃ msg,
      get_logs env "u1" (Some fs)
      = (Raise (HTTPException 500 ("Failed to retrieve logs: " +:+ msg)), Some fs).
Proof.
  intros env d fs. split; [reflexivity|]. split; [reflexivity|].
  split; [by eexists|]. split; [reflexivity|].
  apply (refused_document_fails_listing env "u1" fs "doc9" d
           (TypeError "got multiple values for keyword argument 'id'"));
    [reflexivity|reflexivity|by eexists|reflexivity].
Defined.

(** ** Initialisation *)

Lemma handle_db_None env ep request :
  handle env ep request None =
  if is_logs_route ep
  then (Raise (HTTPException 500 "Firebase connection not available."), None)
  else (Ok (RMessage read_root), None).
Proof.
  destruct ep; cbn [is_logs_route]; [reflexivity|..];
    by apply handle_auth_failure.
Qed.

(** X19. When FIREBASE_CREDENTIALS is set and not empty, the key file is
    never looked at: the outcome is the same whether the file exists or
    not and whatever it holds. In particular a variable that [json.loads]
    refuses leaves [db] at [None] even beside a good key file. *)
Theorem credentials_variable_shadows_key_file {J C} (p : Platform J C)
    creds_json_str (file_exists : string → bool)
    (certificate_of_file : string → result C) :
  getenv p "FIREBASE_CREDENTIALS" = Some creds_json_str →
  creds_json_str ≠ "" →
  firebase_initialization p =
    firebase_initialization
      {| getenv := getenv p; path_exists := file_exists;
         json_loads := json_loads p; Certificate_dict := Certificate_dict p;
         Certificate_path := certificate_of_file; apps := apps p;
         initialize_app := initialize_app p;
         firestore_client := firestore_client p |}
  ∧ ∀ e, json_loads p creds_json_str = Raise e →
         firebase_initialization p =
         (None, ["Error initializing Firebase Admin SDK: " +:+ str e]).
Proof.
  intros Hvar Hne. destruct creds_json_str as [|c s]; [done|]. split.
  - unfold firebase_initialization, load_credentials. cbn [getenv json_loads
      Certificate_dict apps initialize_app firestore_client].
    by rewrite Hvar.
  - intros e He. unfold firebase_initialization, load_credentials.
    by rewrite Hvar, He.
Qed.

Lemma credentials_variable_shadows_key_file_witness :
  let p := example_platform (Some "not json") true in
  getenv p "FIREBASE_CREDENTIALS" = Some "not json"
  ∧ "not json" ≠ ""
  ∧ path_exists p "serviceAccountKey.json" = true
  ∧ firebase_initialization p =
      (None, ["Error initializing Firebase Admin SDK: " +:+
              "Expecting value: line 1 column 1 (char 0)"]).
Proof.
  intros p. split; [reflexivity|]. split; [discriminate|].
  split; [reflexivity|].
  destruct (credentials_variable_shadows_key_file p "not json"
              (path_exists p) (Certificate_path p)) as [_ H];
    [reflexivity|discriminate|].
  exact (H (OtherError "Expecting value: line 1 column 1 (char 0)") eq_refl).
Defined.

(** X20. When an app is already registered ([firebase_admin._apps] is not
    empty, as after a hot reload), [initialize_app] is not called: the
    outcome does not depend on what it would do. *)
Theorem registered_app_is_reused {J C} (p : Platform J C)
    (initialize : C → result unit) :
  apps p = true →
  firebase_initialization p =
    firebase_initialization
      {| getenv := getenv p; path_exists := path_exists p;
         json_loads := json_loads p; Certificate_dict := Certificate_dict p;
         Certificate_path := Certificate_path p; apps := apps p;
         initialize_app := initialize;
         firestore_client := firestore_client p |}.
Proof.
  intros Happs. unfold firebase_initialization.
  cbn [apps initialize_app firestore_client]. rewrite Happs. cbn [negb].
  reflexivity.
Qed.

Lemma registered_app_is_reused_witness :
  let p : Platform string string :=
    {| getenv := fun _ => None;
       path_exists := fun _ => true;
       json_loads := fun text => Ok text;
       Certificate_dict := fun d => Ok d;
       Certificate_path := fun path => Ok path;
       apps := true;
       initialize_app := fun _ =>
         Raise (OtherError "The default Firebase app already exists.");
       firestore_client := Ok example_store |} in
  apps p = true
  ∧ firebase_initialization p =
      (Some example_store,
       ["Initializing Firebase Admin SDK from local file...";
        "Firebase Admin SDK initialized successfully."]).
Proof.
  intros p. split; [reflexivity|].
  rewrite (registered_app_is_reused p (fun _ => Ok tt) eq_refl).
  reflexivity.
Defined.

(* ===================================================================== *)
(** * The service behind the framework and the client *)
(* ===================================================================== *)

(** ** Paths that the client accepts *)

Lemma count_slashes_app a b :
  count_slashes (a +:+ b) = (count_slashes a + count_slashes b)%nat.
Proof.
  induction a as [|c a IH]; [reflexivity|].
  rewrite string_app_cons. cbn [count_slashes]. rewrite IH. lia.
Qed.

Lemma count_slashes_no_slash s : has_slash s = false → count_slashes s = O.
Proof.
  induction s as [|c s IH]; [done|]. cbn [has_slash count_slashes].
  intros [Hc Hs]%orb_false_iff. by rewrite Hc, IH.
Qed.

Lemma path_elements_collection_path user_id :
  path_elements (collection_path user_id) = (5 + count_slashes user_id)%nat.
Proof.
  unfold path_elements, collection_path, appId.
  rewrite !count_slashes_app. cbn. lia.
Qed.

Lemma path_elements_doc_path user_id log_id :
  path_elements (doc_path user_id log_id) =
  (6 + count_slashes user_id + count_slashes log_id)%nat.
Proof.
  unfold path_elements, doc_path, appId.
  rewrite !count_slashes_app. cbn. lia.
Qed.

(** The collection of a user whose identifier is one path element is
    accepted, and so is every document of it under such an identifier. *)
Lemma verify_collection_path user_id :
  is_segment user_id = true →
  verify_path true (collection_path user_id) = Ok tt.
Proof.
  intros Hu%is_segment_no_slash. unfold verify_path.
  by rewrite path_elements_collection_path, (count_slashes_no_slash _ Hu).
Qed.

Lemma verify_doc_path user_id log_id :
  is_segment user_id = true → is_segment log_id = true →
  verify_path false (doc_path user_id log_id) = Ok tt.
Proof.
  intros Hu%is_segment_no_slash Hi%is_segment_no_slash. unfold verify_path.
  by rewrite path_elements_doc_path, (count_slashes_no_slash _ Hu),
    (count_slashes_no_slash _ Hi).
Qed.

Lemma guarded_accepted {A} text is_collection path (run : M A) db :
  verify_path is_collection path = Ok tt →
  Service.guarded text is_collection path run db = run db.
Proof. intros H. unfold Service.guarded. rewrite H. by destruct db. Qed.

Lemma guarded_refused {A} text is_collection path (run : M A) fs e :
  verify_path is_collection path = Raise e →
  Service.guarded text is_collection path run (Some fs) =
  (Raise (HTTPException 500 (text +:+ str e)), Some fs).
Proof. intros H. unfold Service.guarded. by rewrite H. Qed.

Lemma Service_create_log_accepted env log user_id db :
  is_segment user_id = true →
  Service.create_log env log user_id db = create_log env log user_id db.
Proof. intros H. by apply guarded_accepted, verify_collection_path. Qed.

Lemma Service_get_logs_accepted env user_id db :
  is_segment user_id = true →
  Service.get_logs env user_id db = get_logs env user_id db.
Proof. intros H. by apply guarded_accepted, verify_collection_path. Qed.

Lemma Service_update_log_accepted env log_id log user_id db :
  is_segment user_id = true → is_segment log_id = true →
  Service.update_log env log_id log user_id db
  = update_log env log_id log user_id db.
Proof. intros Hu Hi. by apply guarded_accepted, verify_doc_path. Qed.

Lemma Service_delete_log_accepted env log_id user_id db :
  is_segment user_id = true → is_segment log_id = true →
  Service.delete_log env log_id user_id db = delete_log env log_id user_id db.
Proof. intros Hu Hi. by apply guarded_accepted, verify_doc_path. Qed.

(** ** Requests that the dependency refuses *)

Lemma get_current_user_body env hs b b' db :
  get_current_user env {| headers := hs; body := b |} db
  = get_current_user env {| headers := hs; body := b' |} db.
Proof. reflexivity. Qed.

(** When the body is decoded (or not read), a request whose dependency
    fails is answered with the failure of the dependency. *)
Lemma serve_dependency_failure env ep r db e :
  is_logs_route ep = true →
  body_decoded ep r = true →
  (get_current_user env {| headers := http_headers r; body := ∅ |} db).1
    = Raise e →
  Service.serve env ep r db = (Raise e, db).
Proof.
  intros Hep Hb He.
  pose proof (get_current_user_state env
                {| headers := http_headers r; body := ∅ |} db) as Hs.
  destruct (get_current_user env {| headers := http_headers r; body := ∅ |} db)
    as [res db'] eqn:E. cbn in He, Hs. subst res db'.
  destruct ep as [| | |i|i]; [discriminate|..]; unfold Service.serve, bind;
    cbn in Hb; try (by rewrite E);
    destruct (http_body r) as [kw| | |]; try discriminate;
    cbv zeta; rewrite ?(get_current_user_body env _ (value_of <$> kw) ∅);
    by rewrite E.
Qed.

(** A body that cannot be decoded is answered before the dependency
    runs: 422 or 400, and nothing is read or written. *)
Lemma serve_undecoded_body env ep r db :
  body_decoded ep r = false →
  ∃ e, Service.serve env ep r db = (Raise e, db)
       ∧ (e = HTTPException 400 "There was an error parsing the body"
          ∨ ∃ msg, e = RequestValidationError msg).
Proof.
  intros Hb. destruct ep as [| | |i|i]; try discriminate;
    unfold Service.serve; cbn in Hb;
    destruct (http_body r) as [kw| |msg|]; try discriminate;
    eexists; (split; [reflexivity|]); eauto.
Qed.

Lemma headers_get_Authorization hs b :
  headers_get {| headers := hs; body := b |} "Authorization"
  = hs !! "authorization".
Proof. reflexivity. Qed.

Lemma undecoded_status ep e :
  e = HTTPException 400 "There was an error parsing the body"
  ∨ (∃ msg, e = RequestValidationError msg) →
  response_status ep (Raise e : result Reply) = 422
  ∨ response_status ep (Raise e : result Reply) = 400.
Proof. intros [->|[msg ->]]; cbn; auto. Qed.

(** What the service answers when the dependency fails with [e] on every
    database: [e] itself when the body is decoded or not read, 422 or 400
    when it cannot be decoded; the database is never read or written. *)
Lemma serve_when_dependency_fails env ep r fs e :
  is_logs_route ep = true →
  (∀ fs0, (get_current_user env {| headers := http_headers r; body := ∅ |}
             (Some fs0)).1 = Raise e) →
  (body_decoded ep r = true →
     Service.serve env ep r (Some fs) = (Raise e, Some fs))
  ∧ (body_decoded ep r = false →
     response_status ep (Service.serve env ep r (Some fs)).1 = 422
     ∨ response_status ep (Service.serve env ep r (Some fs)).1 = 400)
  ∧ (Service.serve env ep r (Some fs)).2 = Some fs
  ∧ ∀ fs', (Service.serve env ep r (Some fs')).1
           = (Service.serve env ep r (Some fs)).1.
Proof.
  intros Hep He.
  destruct (body_decoded ep r) eqn:Hb.
  - assert (∀ fs0, Service.serve env ep r (Some fs0) = (Raise e, Some fs0)) as H
      by (intros fs0; by apply serve_dependency_failure).
    rewrite H. split; [done|]. split; [done|]. split; [done|].
    intros fs'. by rewrite H.
  - assert (∀ fs0, ∃ e0, Service.serve env ep r (Some fs0) = (Raise e0, Some fs0)
        ∧ (e0 = HTTPException 400 "There was an error parsing the body"
           ∨ ∃ msg, e0 = RequestValidationError msg)) as H
      by (intros fs0; by apply serve_undecoded_body).
    destruct (H fs) as (e0 & H0 & Hcase).
    split; [done|].
    split; [intros _; rewrite H0; by apply undecoded_status|].
    split; [by rewrite H0|]. intros fs'.
    destruct ep as [| | |i|i]; try discriminate;
      unfold Service.serve; cbn in Hb;
      destruct (http_body r) as [kw| |msg|]; try discriminate; reflexivity.
Qed.

(** C4, as stated, fails in two ways. When the Firebase client could not
    be initialised, GET /logs without an Authorization header is answered
    500; and a POST /logs whose body cannot be decoded is answered 422
    before the header is looked at. *)
Lemma missing_header_counterexample :
  let env := example_env "doc1" in
  let r := http_request None (BodyObject (json_of <$> example_body)) in
  let undecodable := http_request None (BodyDecodeError "Expecting value") in
  http_headers r !! "authorization" = None
  ∧ Service.serve env GET_logs r None =
      (Raise (HTTPException 500 "Firebase connection not available."), None)
  ∧ response_status GET_logs (Service.serve env GET_logs r None).1 ≠ 401
  ∧ http_headers undecodable !! "authorization" = None
  ∧ Service.serve env POST_logs undecodable (Some example_store) =
      (Raise (RequestValidationError "Expecting value"), Some example_store)
  ∧ response_status POST_logs
      (Service.serve env POST_logs undecodable (Some example_store)).1 ≠ 401.
Proof. repeat split; done. Qed.

(** C4, amended. When the Firebase client is initialised, a request to a
    /logs route without an Authorization header, whose body is not read
    (GET, DELETE) or is decoded (POST, PUT), is answered 401
    "Authorization header missing"; a POST or PUT whose body cannot be
    decoded is answered 422 or 400 before the header is looked at. In every
    case the database is left as it was and the answer is the same whatever
    the database holds. *)
Theorem missing_header_is_answered env ep r fs :
  is_logs_route ep = true →
  routed ep = true →
  http_headers r !! "authorization" = None →
  (body_decoded ep r = true →
     Service.serve env ep r (Some fs) =
       (Raise (HTTPException 401 "Authorization header missing"), Some fs))
  ∧ (body_decoded ep r = false →
     response_status ep (Service.serve env ep r (Some fs)).1 = 422
     ∨ response_status ep (Service.serve env ep r (Some fs)).1 = 400)
  ∧ (Service.serve env ep r (Some fs)).2 = Some fs
  ∧ ∀ fs', (Service.serve env ep r (Some fs')).1
           = (Service.serve env ep r (Some fs)).1.
Proof.
  intros Hep _ Hh. apply serve_when_dependency_fails; [done|].
  intros fs0. rewrite get_current_user_missing; [done|].
  by rewrite headers_get_Authorization.
Qed.

Lemma missing_header_is_answered_witness :
  let env := example_env "doc2" in
  let r := http_request None (BodyObject (json_of <$> example_body)) in
  is_logs_route (PUT_logs "doc1") = true
  ∧ routed (PUT_logs "doc1") = true
  ∧ http_headers r !! "authorization" = None
  ∧ body_decoded (PUT_logs "doc1") r = true
  ∧ Service.serve env (PUT_logs "doc1") r (Some example_store) =
      (Raise (HTTPException 401 "Authorization header missing"),
       Some example_store).
Proof.
  intros env r. split; [reflexivity|]. split; [reflexivity|].
  split; [reflexivity|]. split; [reflexivity|].
  destruct (missing_header_is_answered env (PUT_logs "doc1") r example_store)
    as [H _]; [reflexivity|reflexivity|reflexivity|].
  exact (H eq_refl).
Defined.

(** C8, as stated, fails. A header without "Bearer " gets the 401 and the
    message of an invalid or expired token, with the text of Python's
    failed index where the verifier's text would stand; the two answers
    are equal when the verifier words its rejection that way. And a POST
    whose body cannot be decoded is answered 422 before the header is
    looked at. *)
Lemma malformed_header_on_service_counterexample :
  let env := example_env "doc1" in
  let terse :=
    {| verify_id_token := fun _ => Raise (InvalidIdTokenError "list index out of range");
       now := ""; auto_id := "doc1" |} in
  let malformed b := http_request (Some "Token abc") b in
  let rejected := http_request (Some "Bearer abc") BodyOther in
  contains "Bearer " "Token abc" = false
  ∧ (Service.serve env GET_logs (malformed BodyOther) (Some ∅)).1 =
      Raise (HTTPException 401
        "Invalid or expired authentication token: list index out of range")
  ∧ (Service.serve env GET_logs rejected (Some ∅)).1 =
      Raise (HTTPException 401
        "Invalid or expired authentication token: Could not verify token signature.")
  ∧ (Service.serve terse GET_logs (malformed BodyOther) (Some ∅)).1
    = (Service.serve terse GET_logs rejected (Some ∅)).1
  ∧ (Service.serve env POST_logs (malformed (BodyDecodeError "Expecting value"))
       (Some ∅)).1 = Raise (RequestValidationError "Expecting value").
Proof. repeat split. Qed.

(** C8, amended. When the Firebase client is initialised, a request to a
    /logs route whose Authorization header is not empty and does not
    contain "Bearer ", and whose body is not read or is decoded, is
    answered 401 with the detail
    "Invalid or expired authentication token: list index out of range":
    the status and the fixed text that a request gets whose token the
    verifier rejects, followed by the text of the exception. A POST or PUT
    whose body cannot be decoded is answered 422 or 400 before the header
    is looked at. The database is left as it was. *)
Theorem malformed_header_is_answered env ep r fs h :
  is_logs_route ep = true →
  routed ep = true →
  http_headers r !! "authorization" = Some h →
  h ≠ "" →
  contains "Bearer " h = false →
  (body_decoded ep r = true →
     Service.serve env ep r (Some fs) =
       (Raise (HTTPException 401
          "Invalid or expired authentication token: list index out of range"),
        Some fs))
  ∧ (body_decoded ep r = false →
     response_status ep (Service.serve env ep r (Some fs)).1 = 422
     ∨ response_status ep (Service.serve env ep r (Some fs)).1 = 400)
  ∧ (Service.serve env ep r (Some fs)).2 = Some fs
  ∧ (∀ r' h' token msg,
       body_decoded ep r' = true →
       http_headers r' !! "authorization" = Some h' → h' ≠ "" →
       list_getitem (split h' "Bearer ") 1 = Ok token →
       verify_id_token env token = Raise (InvalidIdTokenError msg)
       ∨ verify_id_token env token = Raise (ExpiredIdTokenError msg) →
       Service.serve env ep r' (Some fs) =
         (Raise (HTTPException 401
            ("Invalid or expired authentication token: " +:+ msg)), Some fs)).
Proof.
  intros Hep _ Hh Hne Hc.
  destruct (serve_when_dependency_fails env ep r fs
    (HTTPException 401
       "Invalid or expired authentication token: list index out of range") Hep)
    as (H1 & H2 & H3 & _).
  { intros fs0.
    rewrite (get_current_user_header _ _ _ h); [|by rewrite headers_get_Authorization|done].
    by rewrite (split_no_separator _ _ Hc). }
  split; [done|]. split; [done|]. split; [done|].
  intros r' h' token msg Hb' Hh' Hne' Htok Hrej.
  apply serve_dependency_failure; [done..|].
  rewrite (get_current_user_header _ _ _ h');
    [|by rewrite headers_get_Authorization|done].
  rewrite Htok. cbn. by destruct Hrej as [-> | ->].
Qed.

Lemma malformed_header_is_answered_witness :
  let env := example_env "doc2" in
  let r := http_request (Some "Token abc") (BodyObject (json_of <$> example_body)) in
  is_logs_route POST_logs = true
  ∧ routed POST_logs = true
  ∧ http_headers r !! "authorization" = Some "Token abc"
  ∧ "Token abc" ≠ ""
  ∧ contains "Bearer " "Token abc" = false
  ∧ body_decoded POST_logs r = true
  ∧ Service.serve env POST_logs r (Some example_store) =
      (Raise (HTTPException 401
         "Invalid or expired authentication token: list index out of range"),
       Some example_store).
Proof.
  intros env r. split; [reflexivity|]. split; [reflexivity|].
  split; [reflexivity|]. split; [discriminate|]. split; [reflexivity|].
  split; [reflexivity|].
  destruct (malformed_header_is_answered env POST_logs r example_store
              "Token abc") as [H _];
    [reflexivity|reflexivity|reflexivity|discriminate|reflexivity|].
  exact (H eq_refl).
Defined.

(** ** The service and the handlers *)

(** A request is answered before its handler runs (a body that cannot be
    decoded or is no object, a path that the client refuses), and then the
    database is left as it was, or it is answered as [handle] answers the
    decoded request. *)
Lemma serve_cases env ep r db :
  (∃ e, Service.serve env ep r db = (Raise e, db)
        ∧ (e = HTTPException 400 "There was an error parsing the body"
           ∨ (∃ msg, e = RequestValidationError msg)
           ∨ (∃ d, e = HTTPException 500 d)))
  ∨ Service.serve env ep r db = handle env ep (request_of r) db.
Proof.
  pose proof (get_current_user_state env (request_of r) db) as Hs.
  destruct (get_current_user env (request_of r) db) as [res db'] eqn:E.
  cbn in Hs. subst db'.
  assert (∀ b, get_current_user env {| headers := http_headers r; body := b |} db
               = (res, db)) as Hb by (intros b; exact E).
  clear E.
  destruct ep as [| | |i|i]; unfold Service.serve, handle, request_of, bind;
    cbv zeta; [by right|..].
  - destruct (http_body r) as [obj| |msg|]; rewrite ?Hb;
      [| |left; eexists; split; [reflexivity|]; eauto..].
    + destruct res as [u|e]; [|by right]. unfold body_LogEntry. cbn [body].
      destruct (LogEntry_init (now env) (value_of <$> obj)) as [log|e];
        [|by right].
      unfold ret at 1 3. unfold Service.create_log, Service.guarded.
      destruct db as [fs|]; [|by right].
      destruct (verify_path true (collection_path u)) as [[]|e]; [by right|].
      left. eexists. split; [reflexivity|]. eauto.
    + destruct res as [u|e]; [|by right].
      left. eexists. split; [reflexivity|]. eauto.
  - rewrite !Hb. destruct res as [u|e]; [|by right].
    unfold Service.get_logs, Service.guarded.
    destruct db as [fs|]; [|by right].
    destruct (verify_path true (collection_path u)) as [[]|e]; [by right|].
    left. eexists. split; [reflexivity|]. eauto.
  - destruct (http_body r) as [obj| |msg|]; rewrite ?Hb;
      [| |left; eexists; split; [reflexivity|]; eauto..].
    + destruct res as [u|e]; [|by right]. unfold body_LogEntry. cbn [body].
      destruct (LogEntry_init (now env) (value_of <$> obj)) as [log|e];
        [|by right].
      unfold ret at 1 3. unfold Service.update_log, Service.guarded.
      destruct db as [fs|]; [|by right].
      destruct (verify_path false (doc_path u i)) as [[]|e]; [by right|].
      left. eexists. split; [reflexivity|]. eauto.
    + destruct res as [u|e]; [|by right].
      left. eexists. split; [reflexivity|]. eauto.
  - rewrite !Hb. destruct res as [u|e]; [|by right].
    unfold Service.delete_log, Service.guarded.
    destruct db as [fs|]; [|by right].
    destruct (verify_path false (doc_path u i)) as [[]|e]; [by right|].
    left. eexists. split; [reflexivity|]. eauto.
Qed.

(** The databases that the service reaches are among those that the
    handlers reach on decoded requests. *)
Lemma served_reachable fs : Service.reachable fs → reachable fs.
Proof.
  induction 1 as [|env ep r fs fs' _ IH _ Hstep]; [apply reachable_empty|].
  destruct (serve_cases env ep r (Some fs)) as [(e & He & _)|He];
    rewrite He in Hstep.
  - by injection Hstep as <-.
  - by eapply reachable_step.
Qed.

(** ** Create and list, on the paths that the client accepts *)




(** C6, as stated, fails for a user whose identifier holds a "/": the
    listing is answered 500, also when nothing is stored. *)
Lemma list_is_sorted_by_date_counterexample :
  let env := example_env "doc1" in
  namespace_ok "a/b" ∅
  ∧ Service.get_logs env "a/b" (Some ∅) =
      (Raise (HTTPException 500
         "Failed to retrieve logs: A collection must have an odd number of path elements"),
       Some ∅)
  ∧ ∀ logs, (Service.get_logs env "a/b" (Some ∅)).1 ≠ Ok logs.
Proof. repeat split; [compute_done|done]. Qed.

(** C6, amended. For a user whose identifier is one path segment (not
    empty, no "/") and whose namespace holds documents of this API:
    [get_logs] succeeds without writing; its result holds exactly the
    documents of the namespace, each once, ordered by [date] from the
    largest to the smallest in the order of strings; an entry created with
    a [date] smaller than every listed one comes last in the next listing;
    and the listing of a namespace without documents is empty. *)
Theorem list_in_segment_is_sorted_by_date env user_id fs :
  is_segment user_id = true →
  namespace_ok user_id fs →
  ∃ logs,
    Service.get_logs env user_id (Some fs) = (Ok logs, Some fs)
    ∧ (∀ r, r ∈ logs ↔
            is_segment (id r) = true ∧
            fs !! doc_path user_id (id r) = Some (model_dump (entry r)))
    ∧ NoDup (id <$> logs)
    ∧ StronglySorted
        (fun r1 r2 => String.leb (date (entry r2)) (date (entry r1)) = true)
        logs
    ∧ (∀ env1 env2 log,
         is_segment (auto_id env1) = true →
         (∀ r, r ∈ logs → String.ltb (date log) (date (entry r)) = true) →
         ∃ logs',
           Service.get_logs env2 user_id
             (Service.create_log env1 log user_id (Some fs)).2
             = (Ok logs', (Service.create_log env1 log user_id (Some fs)).2)
           ∧ last logs' = Some {| entry := log; id := auto_id env1 |})
    ∧ ((∀ i, fs !! doc_path user_id i = None) → logs = []).
Proof.
  intros Hu Hok.
  destruct (get_logs_spec env user_id fs Hok) as (logs & Hg & Hm).
  exists logs. rewrite Service_get_logs_accepted by done. split; [done|].
  split; [intros r; by apply elem_of_logs|].
  split; [exact (logs_NoDup_id _ _ _ Hm)|].
  split; [exact (logs_sorted _ _ _ Hm)|]. split.
  - intros env1 env2 log Hi Hearlier.
    rewrite Service_create_log_accepted by done.
    rewrite create_log_eq. cbn [snd].
    rewrite Service_get_logs_accepted by done.
    set (created := {| entry := log; id := auto_id env1 |}).
    pose proof (namespace_ok_insert user_id fs _ log Hi Hok) as Hok'.
    destruct (get_logs_spec env2 user_id _ Hok') as (logs' & Hg' & Hm').
    exists logs'. split; [done|].
    apply (sorted_last _ _ _ (logs_sorted_docs _ _ _ Hm')).
    + apply (elem_of_logs _ _ _ _ Hm'). cbn. split; [done|].
      rewrite doc_path_collection_path. apply lookup_insert_eq.
    + intros r Hr Hne. apply earlier_date_not_preceding. cbn.
      apply Hearlier. apply (elem_of_logs _ _ _ _ Hm).
      apply (elem_of_logs _ _ _ _ Hm') in Hr as [Hseg Hr].
      split; [done|]. rewrite doc_path_collection_path in Hr.
      destruct (decide (id r = auto_id env1)) as [Heq|Hid].
      * exfalso. apply Hne. rewrite Heq, lookup_insert_eq in Hr.
        apply (inj Some) in Hr. apply (inj model_dump) in Hr.
        destruct r as [e i]. cbn in *. by subst.
      * rewrite lookup_insert_ne in Hr.
        -- by rewrite doc_path_collection_path.
        -- intros Heq. apply Hid. symmetry.
           by apply (inj (String.app _)), (inj (String.app _)) in Heq.
  - intros Hempty. rewrite (get_logs_empty_namespace _ _ _ Hempty) in Hg.
    by injection Hg as <-.
Qed.

Lemma list_in_segment_is_sorted_by_date_witness :
  let env := example_env "doc2" in
  let fs := <[doc_path "u1" "doc0" := model_dump example_log_2]> example_store in
  is_segment "u1" = true
  ∧ namespace_ok "u1" fs
  ∧ ∃ logs,
      Service.get_logs env "u1" (Some fs) = (Ok logs, Some fs)
      ∧ StronglySorted
          (fun r1 r2 => String.leb (date (entry r2)) (date (entry r1)) = true)
          logs.
Proof.
  cbv zeta. split; [reflexivity|]. split; [compute_done|].
  destruct (list_in_segment_is_sorted_by_date (example_env "doc2") "u1"
              (<[doc_path "u1" "doc0" := model_dump example_log_2]> example_store))
    as (logs & Hg & _ & _ & Hs & _); [reflexivity|compute_done|].
  exists logs. split; [exact Hg|exact Hs].
Defined.

(** ** The body of a request *)

Lemma value_of_insert k j (obj : gmap string json) :
  value_of <$> <[k := j]> obj = <[k := value_of j]> (value_of <$> obj).
Proof. apply fmap_insert. Qed.

(** X6. In a body that [LogEntry] accepts, a key that is no field of
    [LogEntry] (an [id], for one), whatever it holds, changes neither the
    validated entry nor what any endpoint does with the request. *)
Theorem unknown_field_of_valid_body_is_ignored env ep hs obj k j log db :
  k ∉ LogEntry_fields →
  LogEntry_init (now env) (value_of <$> obj) = Ok log →
  LogEntry_init (now env) (value_of <$> <[k := j]> obj) = Ok log
  ∧ Service.serve env ep
      {| http_headers := hs; http_body := BodyObject (<[k := j]> obj) |} db
    = Service.serve env ep
        {| http_headers := hs; http_body := BodyObject obj |} db.
Proof.
  intros Hk Hlog.
  assert (LogEntry_init (now env) (value_of <$> <[k := j]> obj) = Ok log) as H
    by (by rewrite value_of_insert, LogEntry_init_insert_other).
  split; [done|].
  destruct ep; unfold Service.serve, bind, body_LogEntry;
    cbn [http_body http_headers body]; cbv zeta; rewrite ?H, ?Hlog; reflexivity.
Qed.

Lemma unknown_field_of_valid_body_is_ignored_witness :
  let env := example_env "doc2" in
  let hs : gmap string string := {[ "authorization" := "Bearer token-u1" ]} in
  let obj := json_of <$> example_body in
  ("id" ∉ LogEntry_fields)
  ∧ LogEntry_init (now env) (value_of <$> obj) =
      Ok {| taskDescription := "Review"; project := "Docs"; status := "open";
            priority := "low"; startTime := None; endTime := None;
            duration := None; comments := None; date := now env |}
  ∧ (Service.serve env POST_logs
       {| http_headers := hs;
          http_body := BodyObject (<["id" := JOther]> obj) |}
       (Some example_store)).1
    = (Service.serve env POST_logs
         {| http_headers := hs; http_body := BodyObject obj |}
         (Some example_store)).1.
Proof.
  intros env hs obj. split; [compute_done|]. split; [reflexivity|].
  exact (f_equal fst
           (proj2 (unknown_field_of_valid_body_is_ignored env POST_logs hs obj
                     "id" JOther _ (Some example_store)
                     ltac:(compute_done) eq_refl))).
Defined.

Lemma lookup_value_of_str (obj : gmap string json) f s :
  (value_of <$> obj) !! f = Some (VStr s) → obj !! f = Some (JStr s).
Proof.
  rewrite lookup_fmap. destruct (obj !! f) as [[]|]; cbn; congruence.
Qed.

(** X7. With a verified user, POST /logs and PUT /logs/{id} on a body in
    which a required field is missing or is no string end in a request
    validation error before the handler runs, and write nothing. *)
Theorem invalid_body_is_refused env ep r obj user_id fs f :
  http_body r = BodyObject obj →
  get_current_user env (request_of r) (Some fs) = (Ok user_id, Some fs) →
  ep = POST_logs ∨ (∃ i, ep = PUT_logs i) →
  routed ep = true →
  f ∈ ["taskDescription"; "project"; "status"; "priority"] →
  (∀ s, obj !! f ≠ Some (JStr s)) →
  ∃ msg,
    Service.serve env ep r (Some fs)
    = (Raise (RequestValidationError msg), Some fs).
Proof.
  intros Hb Hu Hep _ Hf Hbad.
  destruct (LogEntry_init (now env) (value_of <$> obj)) as [log|e] eqn:E.
  { destruct (LogEntry_init_required _ _ _ _ E Hf) as [s Hs].
    apply lookup_value_of_str in Hs. by destruct (Hbad s). }
  exists (str e). unfold request_of in Hu. rewrite Hb in Hu.
  destruct Hep as [->|[i ->]]; unfold Service.serve, bind, body_LogEntry;
    rewrite Hb; cbv zeta; rewrite Hu; cbn [body]; by rewrite E.
Qed.

Lemma invalid_body_is_refused_witness :
  let env := example_env "doc2" in
  let obj := <["priority" := JOther]> (json_of <$> example_body) in
  let r := http_request (Some "Bearer token-u1") (BodyObject obj) in
  http_body r = BodyObject obj
  ∧ get_current_user env (request_of r) (Some example_store)
    = (Ok "u1", Some example_store)
  ∧ routed (PUT_logs "doc1") = true
  ∧ (∀ s, obj !! "priority" ≠ Some (JStr s))
  ∧ ∃ msg,
      Service.serve env (PUT_logs "doc1") r (Some example_store)
      = (Raise (RequestValidationError msg), Some example_store).
Proof.
  intros env obj r. split; [reflexivity|]. split; [reflexivity|].
  split; [reflexivity|]. split; [by intros s|].
  destruct (invalid_body_is_refused env (PUT_logs "doc1") r obj "u1"
              example_store "priority") as (msg & H).
  - reflexivity.
  - reflexivity.
  - right. by exists "doc1".
  - reflexivity.
  - compute_done.
  - by intros s.
  - by exists msg.
Defined.

(** ** The outcomes of a request *)

(** X11. Every request that the router hands to one of the five
    endpoints ends in one of three ways: a reply of the route; an
    [HTTPException] with status 400, 401 or 500; a request validation
    error. No such request ends in a 404. *)
Theorem service_outcomes env ep r db :
  routed ep = true →
  (∃ reply, (Service.serve env ep r db).1 = Ok reply)
  ∨ (∃ sc d, (Service.serve env ep r db).1 = Raise (HTTPException sc d)
             ∧ (sc = 400 ∨ sc = 401 ∨ sc = 500))
  ∨ (∃ msg, (Service.serve env ep r db).1 = Raise (RequestValidationError msg)).
Proof.
  intros _.
  destruct (serve_cases env ep r db)
    as [(e & -> & [-> | [[msg ->] | [d ->]]]) | ->].
  - right. left. eexists _, _. split; [reflexivity|]. by left.
  - right. right. by exists msg.
  - right. left. eexists _, _. split; [reflexivity|]. by right; right.
  - destruct (handle_status_cases env ep (request_of r) db)
      as [[reply H]|[(sc & d & H & Hsc)|[msg H]]].
    + left. by exists reply.
    + right. left. exists sc, d. split; [done|]. destruct Hsc; auto.
    + right. right. by exists msg.
Qed.

Lemma service_outcomes_witness :
  let r := http_request (Some "Bearer token-u1") BodyReadError in
  routed (PUT_logs "doc1") = true
  ∧ ∃ sc d,
      (Service.serve (example_env "doc2") (PUT_logs "doc1") r
         (Some example_store)).1 = Raise (HTTPException sc d)
      ∧ (sc = 400 ∨ sc = 401 ∨ sc = 500).
Proof.
  intros r. split; [reflexivity|].
  destruct (service_outcomes (example_env "doc2") (PUT_logs "doc1") r
              (Some example_store) eq_refl)
    as [[reply H]|[H|[msg H]]]; [discriminate H|exact H|discriminate H].
Defined.

(** ** Listing in the databases that the service reaches *)

Lemma serve_accepted_GET_logs env r user_id fs :
  is_segment user_id = true →
  get_current_user env (request_of r) (Some fs) = (Ok user_id, Some fs) →
  Service.serve env GET_logs r (Some fs)
  = (let (res, db) := get_logs env user_id (Some fs) in
     match res with
     | Ok l => (Ok (REntries l), db)
     | Raise e => (Raise e, db)
     end).
Proof.
  intros Hseg Hu. unfold Service.serve, bind.
  rewrite (get_current_user_body env _ ∅ (body (request_of r))).
  change {| headers := http_headers r; body := body (request_of r) |}
    with (request_of r).
  rewrite Hu. rewrite Service_get_logs_accepted by done.
  by destruct (get_logs env user_id (Some fs)) as [[l|e] db'].
Qed.

(** X15. In every database that the service has reached, GET /logs of a
    verified user whose identifier is one path segment (not empty, no "/")
    succeeds with status 200 and writes nothing: the documents that the
    service wrote never make a listing fail. *)
Theorem list_succeeds_when_served env r user_id fs :
  Service.reachable fs →
  is_segment user_id = true →
  get_current_user env (request_of r) (Some fs) = (Ok user_id, Some fs) →
  ∃ logs,
    Service.serve env GET_logs r (Some fs) = (Ok (REntries logs), Some fs)
    ∧ response_status GET_logs (Service.serve env GET_logs r (Some fs)).1 = 200.
Proof.
  intros Hr Hseg Hu. apply served_reachable in Hr.
  destruct (get_logs_spec env user_id fs (reachable_namespace_ok _ _ Hr))
    as (logs & Hg & _).
  exists logs.
  assert (Service.serve env GET_logs r (Some fs) = (Ok (REntries logs), Some fs))
    as ->; [|done].
  rewrite (serve_accepted_GET_logs _ _ _ _ Hseg Hu). by rewrite Hg.
Qed.

Lemma example_store_served : Service.reachable example_store.
Proof.
  apply (Service.served_step (example_env "doc1") POST_logs
           (http_request (Some "Bearer token-u1")
              (BodyObject (json_of <$> model_dump example_log)))
           ∅ example_store).
  - apply Service.served_empty.
  - reflexivity.
  - reflexivity.
Qed.

Lemma list_succeeds_when_served_witness :
  let env := example_env "doc2" in
  let r := http_request (Some "Bearer token-u1") BodyOther in
  Service.reachable example_store
  ∧ is_segment "u1" = true
  ∧ get_current_user env (request_of r) (Some example_store)
    = (Ok "u1", Some example_store)
  ∧ ∃ logs,
      Service.serve env GET_logs r (Some example_store)
      = (Ok (REntries logs), Some example_store).
Proof.
  intros env r. split; [apply example_store_served|].
  split; [reflexivity|]. split; [reflexivity|].
  destruct (list_succeeds_when_served env r "u1" example_store)
    as (logs & Hl & _); [apply example_store_served|reflexivity|reflexivity|].
  by exists logs.
Defined.

(** ** Without a database *)

Lemma serve_db_None env ep r :
  body_decoded ep r = true →
  Service.serve env ep r None =
  if is_logs_route ep
  then (Raise (HTTPException 500 "Firebase connection not available."), None)
  else (Ok (RMessage read_root), None).
Proof.
  intros Hb. destruct ep; cbn [is_logs_route]; [reflexivity|..];
    by apply serve_dependency_failure.
Qed.

(** X18. With the variable FIREBASE_CREDENTIALS unset or empty and no
    file serviceAccountKey.json, the initialisation binds [db] to [None]
    and prints the message of the missing key file; from then on every
    request to a /logs route whose body is not read or is decoded is
    answered 500 "Firebase connection not available.", a POST or PUT whose
    body cannot be decoded is answered 422 or 400, and GET / still answers
    its welcome message. The requests are those that the router hands to
    an endpoint. *)
Theorem no_credentials_no_service {J C} (p : Platform J C) :
  getenv p "FIREBASE_CREDENTIALS" = None
  ∨ getenv p "FIREBASE_CREDENTIALS" = Some "" →
  path_exists p "serviceAccountKey.json" = false →
  firebase_initialization p =
    (None, ["Error initializing Firebase Admin SDK: " +:+ key_file_missing])
  ∧ ∀ env ep r,
      routed ep = true →
      let answer := Service.serve env ep r (firebase_initialization p).1 in
      (body_decoded ep r = true →
         answer =
         if is_logs_route ep
         then (Raise (HTTPException 500 "Firebase connection not available."),
               None)
         else (Ok (RMessage read_root), None))
      ∧ (body_decoded ep r = false →
         answer.2 = None
         ∧ (response_status ep answer.1 = 422
            ∨ response_status ep answer.1 = 400)).
Proof.
  intros Hvar Hfile.
  assert (firebase_initialization p =
    (None, ["Error initializing Firebase Admin SDK: " +:+ key_file_missing]))
    as ->.
  { unfold firebase_initialization, load_credentials.
    destruct Hvar as [-> | ->]; by rewrite Hfile. }
  split; [done|]. intros env ep r _. cbv zeta. cbn [fst]. split.
  - apply serve_db_None.
  - intros Hb. destruct (serve_undecoded_body env ep r None Hb) as (e & -> & He).
    split; [done|]. by apply undecoded_status.
Qed.

Lemma no_credentials_no_service_witness :
  let p := example_platform (Some "") false in
  let r := http_request (Some "Bearer token-u1") BodyOther in
  (getenv p "FIREBASE_CREDENTIALS" = None
   ∨ getenv p "FIREBASE_CREDENTIALS" = Some "")
  ∧ path_exists p "serviceAccountKey.json" = false
  ∧ routed GET_logs = true
  ∧ body_decoded GET_logs r = true
  ∧ Service.serve (example_env "doc2") GET_logs r (firebase_initialization p).1
    = (Raise (HTTPException 500 "Firebase connection not available."), None).
Proof.
  intros p r. split; [by right|]. split; [reflexivity|]. split; [reflexivity|].
  split; [reflexivity|].
  destruct (no_credentials_no_service p) as [_ H]; [by right|reflexivity|].
  exact (proj1 (H (example_env "doc2") GET_logs r eq_refl) eq_refl).
Defined.
